(** * The browser RPC bridge of realm-js (lib/browser/rpc.js)

    A shallow embedding of the client half of the synchronous RPC bridge:
    the envelope codec ([serialize] / [deserialize]), the callback registry
    ([registerCallback], [clearTestState]), the request dispatcher
    ([sendRequest]) and its poll back-off.

    JavaScript numbers are modelled by [Z] (plus [PNaN] for the time value of
    an invalid date); floating point is outside the model. *)

From Stdlib Require Import ZArith Lia String Ascii List Bool.
From stdpp Require Import base decidable option list strings gmap pretty.

Local Open Scope string_scope.
Local Open Scope Z_scope.
Local Unset Elimination Schemes.

(** ** Values *)

(** Primitive values other than [undefined]. *)
Inductive prim :=
| PNull
| PBool (b : bool)
| PNum (n : Z)
| PNaN
| PStr (s : string).

(** A function object is known by its identity: [indexOf] compares function
    objects with strict equality. *)
Definition fn := nat.

(** Modelled from the spec: the remote-reference key [idKey] of
    [./constants], a private key under which an object carries an opaque
    integer or string handle and which [Object.keys] does not report.  A
    [handle] is what [value[idKey]] reads: [None] when the key is absent
    ([undefined]), otherwise what is stored under it. *)
Definition handle := option prim.

(** The values the codec is applied to.  Every object carries what is stored
    under the private remote-reference key [idKey].  A plain keyed object is
    the list of its own enumerable data properties in the order
    [Object.keys] reports them. *)
Inductive jsval :=
| VUndefined
| VPrim (p : prim)
| VFunction (f : fn)
| VDate (id : handle) (time : option Z)
| VArray (id : handle) (items : list jsval)
| VBuffer (id : handle) (bytes : list Byte.byte)
| VObject (id : handle) (props : list (string * jsval)).

(** ** Envelopes

    An envelope is the wire object [{type?, value?, id?, keys?, values?}];
    a field that is absent reads as [undefined] ([None]).  The [value] field
    holds a primitive or an array of envelopes. *)
Inductive envelope :=
| Envelope (type : option string) (value : option wire) (id : option prim)
           (keys : option (list string)) (values : option (list envelope))
with wire :=
| WPrim (p : prim)
| WArray (items : list envelope).

Definition env_type (e : envelope) : option string :=
  let 'Envelope t _ _ _ _ := e in t.
Definition env_value (e : envelope) : option wire :=
  let 'Envelope _ v _ _ _ := e in v.
Definition env_id (e : envelope) : option prim :=
  let 'Envelope _ _ i _ _ := e in i.

(** ** Truthiness *)

Definition truthy_prim (p : prim) : bool :=
  match p with
  | PNull => false
  | PBool b => b
  | PNum n => negb (Z.eqb n 0)
  | PNaN => false
  | PStr s => negb (String.eqb s EmptyString)
  end.

Definition truthy_handle (h : handle) : bool :=
  match h with
  | None => false
  | Some p => truthy_prim p
  end.

Definition truthy_string (s : option string) : bool :=
  match s with
  | None => false
  | Some s => negb (String.eqb s EmptyString)
  end.

(** Every object is truthy, the empty array included. *)
Definition truthy (v : jsval) : bool :=
  match v with
  | VUndefined => false
  | VPrim p => truthy_prim p
  | _ => true
  end.

(** ** Collaborators outside this file *)

(** Modelled from the spec: the type tags of [./constants] ([objectTypes]),
    which section 3 of the specification lists as undefined, function, date,
    binary and dict; the dispatcher itself spells the last one out. *)
Module objectTypes.
Definition UNDEFINED : string := "undefined".
Definition FUNCTION : string := "function".
Definition DATE : string := "date".
Definition DATA : string := "binary".
Definition DICT : string := "dict".
End objectTypes.

(** How a call [fn.apply(thisObject, args)] completes. *)
Inductive completion (A : Type) :=
| Returned (a : A)
| Threw (e : jsval).
Arguments Returned {A} a.
Arguments Threw {A} e.

(** The surroundings the module runs in: the helpers of [./base64], the
    built-ins that are not modelled further, and the behaviour of the local
    functions that can be registered as callbacks. *)
Record Runtime := {
  base64_encode : list Byte.byte -> string;
  base64_decode : string -> list Byte.byte;
  (** [Date.parse]: the time value of a date string, [None] for NaN. *)
  Date_parse : string -> option Z;
  (** [fn.apply(thisObject, args)]. *)
  fn_apply : fn -> jsval -> jsval -> completion jsval;
  (** ['' + e] for a thrown value [e]. *)
  to_string : jsval -> string;
  (** The object the engine throws when a property of [undefined] or [null]
      is read; its message and stack are engine specific. *)
  engine_TypeError : jsval
}.

(** ** Errors and results *)

(** What [deserialize_json_value] builds: raw [value] fields and nested
    objects. *)
Inductive error_value :=
| EUndefined
| EPrim (p : prim)
| ERaw (items : list envelope)
| EObject (fields : list (string * error_value)).

(** Exceptions that leave a function of this module. *)
Inductive exn :=
| ErrorObject (props : list (string * error_value))
| TypeError
| SyntaxError.

Inductive throws (A : Type) :=
| Ok (a : A)
| Raise (e : exn).
Arguments Ok {A} a.
Arguments Raise {A} e.

(** [new Error(message)]: the message becomes an own property unless it is
    [undefined]. *)
Definition new_Error (message : option string) : list (string * error_value) :=
  match message with
  | Some m => [("message", EPrim (PStr m))]
  | None => []
  end.

(** ** Objects as property lists *)

(** [object[k] = x] for a key that names a data property: overwrite the
    property in place, or add it at the end.  (The accessor [__proto__] that
    objects inherit is not a data property and is outside the model.) *)
Fixpoint obj_set {A : Type} (k : string) (x : A) (o : list (string * A))
  : list (string * A) :=
  match o with
  | [] => [(k, x)]
  | (k', y) :: rest =>
      if String.eqb k k' then (k, x) :: rest else (k', y) :: obj_set k x rest
  end.

Fixpoint obj_get {A : Type} (k : string) (o : list (string * A)) : option A :=
  match o with
  | [] => None
  | (k', y) :: rest => if String.eqb k k' then Some y else obj_get k rest
  end.

(** [Object.assign(target, source)]. *)
Definition Object_assign {A : Type} (target source : list (string * A))
  : list (string * A) :=
  fold_left (fun o kv => obj_set (fst kv) (snd kv) o) source target.

(** ** Callback registry *)

Fixpoint indexOf_from (callback : fn) (l : list fn) (i : Z) : Z :=
  match l with
  | [] => -1
  | f :: rest =>
      if Nat.eqb f callback then i else indexOf_from callback rest (i + 1)
  end.

(** [registeredCallbacks.indexOf(callback)]: the first position holding the
    function, [-1] when there is none. *)
Definition indexOf (callback : fn) (l : list fn) : Z :=
  indexOf_from callback l 0.

(** [array[n]] for an integer [n]; [None] is [undefined]. *)
Definition array_get {A : Type} (l : list A) (n : Z) : option A :=
  if n <? 0 then None else l !! Z.to_nat n.

(** [registerCallback]: the index handed out, and the registry afterwards.
    [push] returns the new length. *)
Definition registerCallback (registeredCallbacks : list fn) (callback : fn)
  : Z * list fn :=
  let key := indexOf callback registeredCallbacks in
  if 0 <=? key then (key, registeredCallbacks)
  else
    let pushed := (registeredCallbacks ++ [callback])%list in
    (Z.of_nat (length pushed) - 1, pushed).

(** The registry reset of [clearTestState]: [persistentCallback] is the set
    of function objects that carry the symbol. *)
Definition clear_callbacks (persistentCallback : gset fn)
    (registeredCallbacks : list fn) : list fn :=
  filter (fun cb => cb ∈ persistentCallback) registeredCallbacks.

(** ** Type converters *)

Inductive converter :=
| decode_data
| new_date
| deserializeDict_handler
| deserializeFunction_handler.

Definition registerTypeConverter (type : string) (handler : converter)
    (table : gmap string converter) : gmap string converter :=
  <[type := handler]> table.

(** The table after the four registrations made when the module loads. *)
Definition typeConverters : gmap string converter :=
  registerTypeConverter objectTypes.FUNCTION deserializeFunction_handler
    (registerTypeConverter objectTypes.DICT deserializeDict_handler
       (registerTypeConverter objectTypes.DATE new_date
          (registerTypeConverter objectTypes.DATA decode_data ∅))).

(** [type && typeConverters[type]]. *)
Definition find_handler (type : option string) : option converter :=
  match type with
  | Some t => if String.eqb t EmptyString then None else typeConverters !! t
  | None => None
  end.

(** ** Dates *)

(** A time value is kept only within 8.64e15 ms of the epoch. *)
Definition TimeClip (t : Z) : option Z :=
  if Z.abs t <=? 8640000000000000 then Some t else None.

(** The time value of [new Date(value)]. *)
Definition date_time (Date_parse : string -> option Z) (value : option wire)
  : option Z :=
  match value with
  | None => None
  | Some (WPrim PNull) => Some 0
  | Some (WPrim (PBool b)) => Some (if b then 1 else 0)
  | Some (WPrim (PNum n)) => TimeClip n
  | Some (WPrim PNaN) => None
  | Some (WPrim (PStr s)) => Date_parse s
  | Some (WArray _) => None
  end.

(** [value.getTime()]. *)
Definition getTime (time : option Z) : prim :=
  match time with
  | Some t => PNum t
  | None => PNaN
  end.

(** ** Envelope codec *)

(** [array.map(f)] for an [f] that updates the registry: the items are
    visited from left to right. *)
Definition Array_map {A B S : Type} (f : S -> A -> B * S)
  : S -> list A -> list B * S :=
  fix go (s : S) (items : list A) : list B * S :=
    match items with
    | [] => ([], s)
    | item :: rest =>
        let '(y, s1) := f s item in
        let '(ys, s2) := go s1 rest in
        (y :: ys, s2)
    end.

(** [array.map(f)] for an [f] that can throw. *)
Definition Array_map_throws {A B : Type} (f : A -> throws B)
  : list A -> throws (list B) :=
  fix go (items : list A) : throws (list B) :=
    match items with
    | [] => Ok []
    | item :: rest =>
        match f item with
        | Raise e => Raise e
        | Ok y =>
            match go rest with
            | Raise e => Raise e
            | Ok ys => Ok (y :: ys)
            end
        end
    end.

(** The loop of [deserializeDict]: [object[keys[i]] = f(values[i])] for each
    key in turn; a key without a value makes [f] read a property of
    [undefined]. *)
Definition dict_loop {A B : Type} (f : A -> throws B)
  : list A -> list string -> list (string * B) -> throws (list (string * B)) :=
  fix loop (values : list A) (keys : list string) (object : list (string * B))
      {struct values} : throws (list (string * B)) :=
    match keys with
    | [] => Ok object
    | k :: keys' =>
        match values with
        | [] => Raise TypeError
        | item :: values' =>
            match f item with
            | Raise e => Raise e
            | Ok y => loop values' keys' (obj_set k y object)
            end
        end
    end.

Section Codec.
Variable rt : Runtime.

Definition plain_envelope (value : wire) : envelope :=
  Envelope None (Some value) None None None.

Definition reference_envelope (id : handle) : envelope :=
  Envelope None None id None None.

(** [serialize(realmId, value)], threading [registeredCallbacks]. *)
Fixpoint serialize (registeredCallbacks : list fn) (realmId : handle)
    (value : jsval) {struct value} : envelope * list fn :=
  match value with
  | VUndefined =>
      (Envelope (Some objectTypes.UNDEFINED) None None None None,
       registeredCallbacks)
  | VFunction f =>
      let '(key, reg) := registerCallback registeredCallbacks f in
      (Envelope (Some objectTypes.FUNCTION) (Some (WPrim (PNum key)))
         None None None, reg)
  | VPrim p => (plain_envelope (WPrim p), registeredCallbacks)
  | VDate id time =>
      if truthy_handle id then (reference_envelope id, registeredCallbacks)
      else
        (Envelope (Some objectTypes.DATE) (Some (WPrim (getTime time)))
           None None None, registeredCallbacks)
  | VArray id items =>
      if truthy_handle id then (reference_envelope id, registeredCallbacks)
      else
        let '(array, reg) :=
          Array_map (fun reg item => serialize reg realmId item)
            registeredCallbacks items in
        (plain_envelope (WArray array), reg)
  | VBuffer id bytes =>
      if truthy_handle id then (reference_envelope id, registeredCallbacks)
      else
        (Envelope (Some objectTypes.DATA)
           (Some (WPrim (PStr (base64_encode rt bytes)))) None None None,
         registeredCallbacks)
  | VObject id props =>
      if truthy_handle id then (reference_envelope id, registeredCallbacks)
      else
        let keys := map fst props in
        let '(values, reg) :=
          Array_map (fun reg kv => serialize reg realmId (snd kv))
            registeredCallbacks props in
        (Envelope (Some objectTypes.DICT) None None (Some keys) (Some values),
         reg)
  end.

(** [deserializeFunction]: [registeredCallbacks[info.value]]. *)
Definition deserializeFunction (registeredCallbacks : list fn)
    (info : envelope) : jsval :=
  match env_value info with
  | Some (WPrim (PNum n)) =>
      match array_get registeredCallbacks n with
      | Some f => VFunction f
      | None => VUndefined
      end
  | _ => VUndefined
  end.

(** [deserialize(realmId, info)] with the four converters in place;
    [Raise TypeError] is a property read on [undefined], which is also what
    decoding anything but a string is taken to end in. *)
Fixpoint deserialize (registeredCallbacks : list fn) (realmId : handle)
    (info : envelope) {struct info} : throws jsval :=
  match info with
  | Envelope type value _ keys values =>
      match find_handler type with
      | Some decode_data =>
          match value with
          | Some (WPrim (PStr text)) =>
              Ok (VBuffer None (base64_decode rt text))
          | _ => Raise TypeError
          end
      | Some new_date => Ok (VDate None (date_time (Date_parse rt) value))
      | Some deserializeDict_handler =>
          match keys with
          | None => Raise TypeError
          | Some [] => Ok (VObject None [])
          | Some keys =>
              match values with
              | None => Raise TypeError
              | Some values =>
                  match dict_loop (deserialize registeredCallbacks realmId)
                          values keys [] with
                  | Raise e => Raise e
                  | Ok object => Ok (VObject None object)
                  end
              end
          end
      | Some deserializeFunction_handler =>
          Ok (deserializeFunction registeredCallbacks info)
      | None =>
          match value with
          | Some (WArray items) =>
              match Array_map_throws (deserialize registeredCallbacks realmId)
                      items with
              | Raise e => Raise e
              | Ok vs => Ok (VArray None vs)
              end
          | Some (WPrim p) => Ok (VPrim p)
          | None => Ok VUndefined
          end
      end
  end.
End Codec.

(** ** Error messages *)

Definition is_letter (c : ascii) : bool :=
  let n := N_of_ascii c in
  ((65 <=? n) && (n <=? 90) || (97 <=? n) && (n <=? 122))%N.

Fixpoint skip_letters (s : string) : string :=
  match s with
  | String c rest => if is_letter c then skip_letters rest else s
  | EmptyString => s
  end.

(** [s.replace(/^[a-z]+: /i, '')]: a leading run of one or more ASCII
    letters followed by a colon and a space is removed. *)
Definition strip_type_prefix (s : string) : string :=
  match s with
  | String c _ =>
      if is_letter c then
        match skip_letters s with
        | String ":" (String " " rest) => rest
        | _ => s
        end
      else s
  | EmptyString => s
  end.

Definition double_quote : string := String "034"%char EmptyString.

(** The template [Invalid response for ...] with the command between double
    quotes. *)
Definition invalid_response (command : string) : string :=
  "Invalid response for " +:+ double_quote +:+ command +:+ double_quote.

(** [String(p)]. *)
Definition prim_to_string (p : prim) : string :=
  match p with
  | PNull => "null"
  | PBool b => if b then "true" else "false"
  | PNum n => pretty n
  | PNaN => "NaN"
  | PStr s => s
  end.

(** [propValue.value] as it is stored on the error object. *)
Definition raw_value (value : option wire) : error_value :=
  match value with
  | None => EUndefined
  | Some (WPrim p) => EPrim p
  | Some (WArray items) => ERaw items
  end.

Definition is_dict (type : option string) : bool :=
  match type with
  | Some t => String.eqb t "dict"
  | None => false
  end.

(** [deserialize_json_value(value)]: an object from a serialized dict. *)
Fixpoint deserialize_json_value (value : envelope) {struct value}
  : throws (list (string * error_value)) :=
  match value with
  | Envelope _ _ _ keys values =>
      match keys with
      | None => Raise TypeError
      | Some [] => Ok []
      | Some keys =>
          match values with
          | None => Raise TypeError
          | Some values =>
              dict_loop
                (fun propValue =>
                   if is_dict (env_type propValue) then
                     match deserialize_json_value propValue with
                     | Raise e => Raise e
                     | Ok nested => Ok (EObject nested)
                     end
                   else Ok (raw_value (env_value propValue)))
                values keys []
          end
      end
  end.

(** ** Requests and responses *)

(** Parsed JSON found in a response or sent in a request. *)
Inductive json :=
| JPrim (p : prim)
| JEnvelope (e : envelope)
| JEnvelopes (es : list envelope).

(** A property of a request payload: a local value, parsed JSON, or the
    text [JSON.stringify(v)]. *)
Inductive field :=
| FValue (v : jsval)
| FJson (j : json)
| FStringify (v : jsval).

Definition payload := list (string * field).

(** The [error] member of a response: a primitive (a string as a rule) or
    an envelope. *)
Inductive error_field :=
| ErrPrim (p : prim)
| ErrEnvelope (e : envelope).

(** A response object; [None] is a member that is absent or, for
    [callback], [null]. *)
Record response := {
  resp_result : option json;
  resp_error : option error_field;
  resp_message : option string;
  resp_callback : option Z;
  resp_this : option envelope;
  resp_arguments : option envelope;
  resp_callback_call_counter : option Z
}.

(** What [JSON.parse(responseText)] returns: an object, or a primitive such
    as [null]. *)
Inductive body :=
| BPrim (p : prim)
| BObject (r : response).

(** One answer of the transport; [parsed] is [None] when the text is not
    JSON. *)
Record http_reply := {
  statusCode : Z;
  responseText : string;
  parsed : option body
}.

(** ** Module state *)

Record rpc_state := {
  registeredCallbacks : list fn;
  persistentCallback : gset fn;
  sessionHost : option string;
  sessionId : option json;
  pollTimeoutId : option nat;
  pollTimeout : Z;
  (** pending one-shot timers, as (id, delay) *)
  timers : list (nat * Z);
  next_timer : nat;
  (** the requests posted so far, oldest first, as (url, data) *)
  posted : list (string * payload)
}.

Definition initial_state : rpc_state :=
  {| registeredCallbacks := [];
     persistentCallback := ∅;
     sessionHost := None;
     sessionId := None;
     pollTimeoutId := None;
     pollTimeout := 10;
     timers := [];
     next_timer := 0%nat;
     posted := [] |}.

Definition set_registeredCallbacks (reg : list fn) (st : rpc_state) : rpc_state :=
  {| registeredCallbacks := reg;
     persistentCallback := persistentCallback st;
     sessionHost := sessionHost st;
     sessionId := sessionId st;
     pollTimeoutId := pollTimeoutId st;
     pollTimeout := pollTimeout st;
     timers := timers st;
     next_timer := next_timer st;
     posted := posted st |}.

Definition set_pollTimeout (t : Z) (st : rpc_state) : rpc_state :=
  {| registeredCallbacks := registeredCallbacks st;
     persistentCallback := persistentCallback st;
     sessionHost := sessionHost st;
     sessionId := sessionId st;
     pollTimeoutId := pollTimeoutId st;
     pollTimeout := t;
     timers := timers st;
     next_timer := next_timer st;
     posted := posted st |}.

(** [clearTimeout(pollTimeoutId)]. *)
Definition clearTimeout (st : rpc_state) : rpc_state :=
  {| registeredCallbacks := registeredCallbacks st;
     persistentCallback := persistentCallback st;
     sessionHost := sessionHost st;
     sessionId := sessionId st;
     pollTimeoutId := pollTimeoutId st;
     pollTimeout := pollTimeout st;
     timers :=
       match pollTimeoutId st with
       | Some id => filter (fun t => fst t ≠ id) (timers st)
       | None => timers st
       end;
     next_timer := next_timer st;
     posted := posted st |}.

(** [pollTimeoutId = setTimeout(() => sendRequest('callbacks_poll'), pollTimeout)]. *)
Definition arm_poll (st : rpc_state) : rpc_state :=
  {| registeredCallbacks := registeredCallbacks st;
     persistentCallback := persistentCallback st;
     sessionHost := sessionHost st;
     sessionId := sessionId st;
     pollTimeoutId := Some (next_timer st);
     pollTimeout := pollTimeout st;
     timers := (timers st ++ [(next_timer st, pollTimeout st)])%list;
     next_timer := S (next_timer st);
     posted := posted st |}.

Definition post (url : string) (data : payload) (st : rpc_state) : rpc_state :=
  {| registeredCallbacks := registeredCallbacks st;
     persistentCallback := persistentCallback st;
     sessionHost := sessionHost st;
     sessionId := sessionId st;
     pollTimeoutId := pollTimeoutId st;
     pollTimeout := pollTimeout st;
     timers := timers st;
     next_timer := next_timer st;
     posted := (posted st ++ [(url, data)])%list |}.

Definition truthy_json (j : option json) : bool :=
  match j with
  | Some (JPrim p) => truthy_prim p
  | Some _ => true
  | None => false
  end.

(** ** Dispatcher *)

(** [makeRequest] once the transport has answered. *)
Definition makeRequest (reply : http_reply) : throws body :=
  if statusCode reply =? 200 then
    match parsed reply with
    | Some b => Ok b
    | None => Raise SyntaxError
    end
  else Raise (ErrorObject (new_Error (Some (responseText reply)))).

(** [response && response.callback], kept when it is an integer. *)
Definition response_callback (response : body) : option Z :=
  match response with
  | BPrim _ => None
  | BObject r => resp_callback r
  end.

Definition truthy_callback (callback : option Z) : bool :=
  match callback with
  | Some n => negb (n =? 0)
  | None => false
  end.

(** The update of [pollTimeout] made in each cycle once the response has
    arrived. *)
Definition backoff (callback : option Z) (command : string) (pollTimeout : Z)
  : Z :=
  if truthy_callback callback || negb (String.eqb command "callbacks_poll")
  then 10
  else if pollTimeout <? 1000 then pollTimeout * 2
  else pollTimeout.

Definition truthy_error (error : option error_field) : bool :=
  match error with
  | Some (ErrPrim p) => truthy_prim p
  | Some (ErrEnvelope _) => true
  | None => false
  end.

(** [!response || response.error]. *)
Definition error_outcome (response : body) : bool :=
  match response with
  | BPrim p => negb (truthy_prim p)
  | BObject r => truthy_error (resp_error r)
  end.

(** [response && response.error]. *)
Definition response_error (response : body) : option error_field :=
  match response with
  | BPrim p => if truthy_prim p then None else Some (ErrPrim p)
  | BObject r => resp_error r
  end.

Definition response_message (response : body) : option string :=
  match response with
  | BPrim _ => None
  | BObject r => resp_message r
  end.

(** The exception raised by the block guarded by
    [!response || response.error].  A string has a [replace] method; reading
    [error.type] fails on [null] and [undefined] and finds nothing on the
    other primitives. *)
Definition response_exception (command : string) (response : body) : exn :=
  let generic := ErrorObject (new_Error (Some (invalid_response command))) in
  match response_error response with
  | Some (ErrPrim (PStr s)) =>
      if truthy_prim (PStr s) then
        let error := strip_type_prefix s in
        if truthy_prim (PStr error) then ErrorObject (new_Error (Some error))
        else generic
      else generic
  | Some (ErrPrim PNull) => TypeError
  | None => TypeError
  | Some (ErrPrim p) =>
      if truthy_prim p then ErrorObject (new_Error (Some (prim_to_string p)))
      else generic
  | Some (ErrEnvelope error) =>
      if is_dict (env_type error) then
        match deserialize_json_value error with
        | Raise e => e
        | Ok responseError =>
            let responeMessage :=
              if truthy_string (response_message response)
              then option_map strip_type_prefix (response_message response)
              else None in
            ErrorObject (Object_assign (new_Error responeMessage) responseError)
        end
      else ErrorObject (new_Error (Some "[object Object]"))
  end.

(** [e.name] for a value [e] that is neither [undefined] nor [null]; a
    property that is absent reads as [undefined]. *)
Definition get_property (e : jsval) (name : string) : jsval :=
  match e with
  | VObject _ props =>
      match obj_get name props with
      | Some v => v
      | None => VUndefined
      end
  | _ => VUndefined
  end.

Definition is_nullish (e : jsval) : bool :=
  match e with
  | VUndefined => true
  | VPrim PNull => true
  | _ => false
  end.

(** What the callback block leaves in [result], [error] and [stack]. *)
Record callback_report := {
  report_result : option envelope;
  report_error : jsval;
  report_stack : option jsval
}.

(** How a call of [sendRequest] ends: it returns or throws, leaving the
    state and the answers the transport has not given yet, or it waits for
    an answer that never comes. *)
Inductive outcome :=
| Done (r : throws (option json)) (st : rpc_state) (rest : list http_reply)
| Waiting (st : rpc_state).

Definition state_of (o : outcome) : rpc_state :=
  match o with
  | Done _ st _ => st
  | Waiting st => st
  end.

Section Dispatcher.
Variable rt : Runtime.

(** The handler [catch (e)] of the callback block; reading [e.message]
    fails when [e] is [undefined] or [null]. *)
Definition catch_callback (e : jsval) : throws callback_report :=
  if is_nullish e then Raise TypeError
  else
    let message := get_property e "message" in
    let stack := get_property e "stack" in
    Ok {| report_result := None;
          report_error :=
            if truthy message then message
            else VPrim (PStr (to_string rt e));
          report_stack := if truthy stack then Some stack else None |}.

(** [deserialize(realmId, response.member)] inside the callback block. *)
Definition deserialize_member (reg : list fn) (realmId : handle)
    (member : option envelope) : throws jsval :=
  match member with
  | Some info => deserialize rt reg realmId info
  | None => Raise TypeError
  end.

(** The [try] statement run for a callback request: the report and the
    registry afterwards. *)
Definition run_callback (reg : list fn) (realmId : handle) (r : response)
    (callback : Z) : throws callback_report * list fn :=
  match deserialize_member reg realmId (resp_this r) with
  | Raise _ => (catch_callback (engine_TypeError rt), reg)
  | Ok thisObject =>
      match deserialize_member reg realmId (resp_arguments r) with
      | Raise _ => (catch_callback (engine_TypeError rt), reg)
      | Ok args =>
          match array_get reg callback with
          | Some fn =>
              match fn_apply rt fn thisObject args with
              | Returned v =>
                  let '(result, reg') := serialize rt reg realmId v in
                  (Ok {| report_result := Some result;
                         report_error := VUndefined;
                         report_stack := None |}, reg')
              | Threw e => (catch_callback e, reg)
              end
          | None =>
              (Ok {| report_result := None;
                     report_error :=
                       VPrim (PStr ("Unknown callback id: " +:+ pretty callback));
                     report_stack := None |}, reg)
          end
      end
  end.

Definition callbackCommand (command : string) : string :=
  if String.eqb command "callbacks_poll"
     || String.eqb command "callback_poll_result"
  then "callback_poll_result"
  else "callback_result".

Definition optional {A : Type} (f : A -> field) (x : option A) : field :=
  match x with
  | Some a => f a
  | None => FValue VUndefined
  end.

(** The payload of the follow-up request. *)
Definition callback_payload (callback : Z) (report : callback_report)
    (counter : option Z) : payload :=
  [("callback", FValue (VPrim (PNum callback)));
   ("result", optional (fun e => FJson (JEnvelope e)) (report_result report));
   ("error", FValue (report_error report));
   ("stack", optional FStringify (report_stack report));
   ("callback_call_counter", optional (fun n => FValue (VPrim (PNum n))) counter)].

(** [data.realmId]. *)
Definition data_realmId (data : payload) : handle :=
  match obj_get "realmId" data with
  | Some (FValue (VPrim p)) => Some p
  | Some (FJson (JPrim p)) => Some p
  | _ => None
  end.

(** The [finally] clause. *)
Definition finally_arm_poll (o : outcome) : outcome :=
  match o with
  | Done r st rest => Done r (arm_poll st) rest
  | Waiting st => Waiting st
  end.

(** The [try] block of [sendRequest] once [pollTimeout] has been updated:
    the error block, the callback block and the plain result; [self] is
    the nested call [sendRequest(callbackCommand, ...)]. *)
Definition handle_response (self : string -> payload -> rpc_state -> outcome)
    (rest : list http_reply) (command : string) (data : payload)
    (response : body) (st : rpc_state) : outcome :=
  if error_outcome response then
    Done (Raise (response_exception command response)) st rest
  else
    match response, response_callback response with
    | BObject r, Some callback =>
        let realmId := data_realmId data in
        let '(report, reg) :=
          run_callback (registeredCallbacks st) realmId r callback in
        let st := set_registeredCallbacks reg st in
        match report with
        | Raise e => Done (Raise e) st rest
        | Ok report =>
            self (callbackCommand command)
              (callback_payload callback report (resp_callback_call_counter r))
              st
        end
    | BObject r, None => Done (Ok (resp_result r)) st rest
    | BPrim _, _ => Done (Ok None) st rest
    end.

(** The [try] block of [sendRequest] from the answer of the transport
    on. *)
Definition after_reply (self : string -> payload -> rpc_state -> outcome)
    (reply : http_reply) (rest : list http_reply) (command : string)
    (data : payload) (st : rpc_state) : outcome :=
  match makeRequest reply with
  | Raise e => Done (Raise e) st rest
  | Ok response =>
      let callback := response_callback response in
      handle_response self rest command data response
        (set_pollTimeout (backoff callback command (pollTimeout st)) st)
  end.

(** [host = sessionHost] when the argument is left out, then [!host]. *)
Definition resolve_host (host : option string) (st : rpc_state)
  : option string :=
  let host := match host with Some h => Some h | None => sessionHost st end in
  if truthy_string host then host else None.

(** [Object.assign({}, data, sessionId ? { sessionId } : null)]. *)
Definition with_session (data : payload) (st : rpc_state) : payload :=
  Object_assign (Object_assign [] data)
    (match sessionId st with
     | Some id => if truthy_json (Some id) then [("sessionId", FJson id)] else []
     | None => []
     end).

(** [sendRequest(command, data, host)] against the answers the transport
    will give, in order. *)
Fixpoint sendRequest (replies : list http_reply) (command : string)
    (data : payload) (host : option string) (st : rpc_state) {struct replies}
  : outcome :=
  let st := clearTimeout st in
  match resolve_host host st with
  | None =>
      finally_arm_poll
        (Done (Raise (ErrorObject (new_Error
                 (Some "Must first create RPC session with a valid host"))))
           st replies)
  | Some host =>
      let data := with_session data st in
      let url := "http://" +:+ host +:+ "/" +:+ command in
      let st := post url data st in
      match replies with
      | [] => Waiting st
      | reply :: rest =>
          finally_arm_poll
            (after_reply (fun command data st => sendRequest rest command data None st)
               reply rest command data st)
      end
  end.

(** [createSession(refreshAccessToken, host)]. *)
Definition createSession (replies : list http_reply) (refreshAccessToken : fn)
    (host : option string) (st : rpc_state) : outcome :=
  let st :=
    {| registeredCallbacks := registeredCallbacks st;
       persistentCallback := {[refreshAccessToken]} ∪ persistentCallback st;
       sessionHost := sessionHost st;
       sessionId := sessionId st;
       pollTimeoutId := pollTimeoutId st;
       pollTimeout := pollTimeout st;
       timers := timers st;
       next_timer := next_timer st;
       posted := posted st |} in
  let '(e, reg) :=
    serialize rt (registeredCallbacks st) None (VFunction refreshAccessToken) in
  let st := set_registeredCallbacks reg st in
  match sendRequest replies "create_session"
          [("refreshAccessToken", FJson (JEnvelope e))] host st with
  | Done (Ok id) st rest =>
      Done (Ok id)
        {| registeredCallbacks := registeredCallbacks st;
           persistentCallback := persistentCallback st;
           sessionHost := host;
           sessionId := id;
           pollTimeoutId := pollTimeoutId st;
           pollTimeout := pollTimeout st;
           timers := timers st;
           next_timer := next_timer st;
           posted := posted st |} rest
  | o => o
  end.

(** [clearTestState()]. *)
Definition clearTestState (replies : list http_reply) (st : rpc_state)
  : outcome :=
  match sendRequest replies "clear_test_state" [] None st with
  | Done (Ok _) st rest =>
      Done (Ok None)
        (set_registeredCallbacks
           (clear_callbacks (persistentCallback st) (registeredCallbacks st))
           st) rest
  | o => o
  end.

(** A call into the module that starts a dispatch cycle; the poll timer
    firing is [call_sendRequest] of the poll command. *)
Inductive api_call :=
| call_sendRequest (command : string) (data : payload) (host : option string)
| call_createSession (refreshAccessToken : fn) (host : option string)
| call_clearTestState.

Definition run_call (replies : list http_reply) (c : api_call)
    (st : rpc_state) : outcome :=
  match c with
  | call_sendRequest command data host =>
      sendRequest replies command data host st
  | call_createSession refreshAccessToken host =>
      createSession replies refreshAccessToken host st
  | call_clearTestState => clearTestState replies st
  end.

(** The state after a sequence of calls, one after the other. *)
Fixpoint run_calls (calls : list api_call) (replies : list http_reply)
    (st : rpc_state) : rpc_state :=
  match calls with
  | [] => st
  | c :: more =>
      match run_call replies c st with
      | Done _ st' rest => run_calls more rest st'
      | Waiting st' => st'
      end
  end.
End Dispatcher.

(** ** Representable values *)

Definition in_date_range (time : option Z) : bool :=
  match time with
  | Some t => Z.abs t <=? 8640000000000000
  | None => true
  end.

Definition no_handle (id : handle) : bool :=
  match id with
  | None => true
  | Some _ => false
  end.

(** A value built from [undefined], primitives, dates, binary buffers,
    ordered sequences and plain keyed objects: no function, no object that
    carries the remote-reference key, time values a date can hold, and keys
    that are pairwise different within each object. *)
Fixpoint representable (v : jsval) : bool :=
  match v with
  | VUndefined => true
  | VPrim _ => true
  | VFunction _ => false
  | VDate id time => no_handle id && in_date_range time
  | VArray id items => no_handle id && forallb representable items
  | VBuffer id _ => no_handle id
  | VObject id props =>
      no_handle id && bool_decide (NoDup (map fst props))
      && forallb (fun kv => representable (snd kv)) props
  end.

(** Structural induction on values, with the nested lists unfolded. *)
Section jsval_induction.
Variable P : jsval -> Prop.
Hypothesis P_undefined : P VUndefined.
Hypothesis P_prim : forall p, P (VPrim p).
Hypothesis P_function : forall f, P (VFunction f).
Hypothesis P_date : forall id time, P (VDate id time).
Hypothesis P_array :
  forall id items, Forall P items -> P (VArray id items).
Hypothesis P_buffer : forall id bytes, P (VBuffer id bytes).
Hypothesis P_object :
  forall id props, Forall (fun kv => P (snd kv)) props -> P (VObject id props).

Fixpoint jsval_ind (v : jsval) : P v :=
  match v with
  | VUndefined => P_undefined
  | VPrim p => P_prim p
  | VFunction f => P_function f
  | VDate id time => P_date id time
  | VArray id items =>
      P_array id items
        ((fix all (l : list jsval) : Forall P l :=
            match l with
            | [] => @List.Forall_nil _ P
            | x :: rest => @List.Forall_cons _ P x rest (jsval_ind x) (all rest)
            end) items)
  | VBuffer id bytes => P_buffer id bytes
  | VObject id props =>
      P_object id props
        ((fix all (l : list (string * jsval))
            : Forall (fun kv => P (snd kv)) l :=
            match l with
            | [] => @List.Forall_nil _ _
            | kv :: rest =>
                @List.Forall_cons _ (fun kv => P (snd kv)) kv rest
                  (jsval_ind (snd kv)) (all rest)
            end) props)
  end.
End jsval_induction.

(** ** A Base64 codec

    The standard alphabet with padding; it instantiates the helpers of
    [./base64], which the codec above takes from the runtime. *)
Module Base64.
Definition alphabet : string :=
  "ABCDEFGHIJKLMNOPQRSTUVWXYZabcdefghijklmnopqrstuvwxyz0123456789+/".

Definition pad : ascii := "="%char.

Definition sextet_char (n : N) : ascii :=
  match String.get (N.to_nat n) alphabet with
  | Some c => c
  | None => pad
  end.

Fixpoint index_from (c : ascii) (s : string) (i : N) : N :=
  match s with
  | EmptyString => 0%N
  | String d rest => if Ascii.eqb c d then i else index_from c rest (i + 1)%N
  end.

Definition char_sextet (c : ascii) : N := index_from c alphabet 0%N.

Definition byte_of (n : N) : Byte.byte :=
  match Byte.of_N n with
  | Some b => b
  | None => Byte.x00
  end.

Fixpoint encode (bytes : list Byte.byte) : string :=
  match bytes with
  | [] => EmptyString
  | [a] =>
      let a := Byte.to_N a in
      String (sextet_char (a / 4)) (String (sextet_char (a mod 4 * 16))
        (String pad (String pad EmptyString)))
  | [a; b] =>
      let a := Byte.to_N a in
      let b := Byte.to_N b in
      String (sextet_char (a / 4))
        (String (sextet_char (a mod 4 * 16 + b / 16))
           (String (sextet_char (b mod 16 * 4)) (String pad EmptyString)))
  | a :: b :: c :: rest =>
      let a := Byte.to_N a in
      let b := Byte.to_N b in
      let c := Byte.to_N c in
      String (sextet_char (a / 4))
        (String (sextet_char (a mod 4 * 16 + b / 16))
           (String (sextet_char (b mod 16 * 4 + c / 64))
              (String (sextet_char (c mod 64)) (encode rest))))
  end%N.

Fixpoint decode (text : string) : list Byte.byte :=
  match text with
  | String c1 (String c2 (String c3 (String c4 rest))) =>
      let s1 := char_sextet c1 in
      let s2 := char_sextet c2 in
      let s3 := char_sextet c3 in
      let s4 := char_sextet c4 in
      let b1 := byte_of (s1 * 4 + s2 / 16) in
      let b2 := byte_of (s2 mod 16 * 16 + s3 / 4) in
      let b3 := byte_of (s3 mod 4 * 64 + s4) in
      if Ascii.eqb c3 pad then [b1]
      else if Ascii.eqb c4 pad then [b1; b2]
      else b1 :: b2 :: b3 :: decode rest
  | _ => []
  end%N.

(** The check that a sextet is read back from its character, which is not
    the padding. *)
Definition sextet_ok (n : N) : bool :=
  (char_sextet (sextet_char n) =? n)%N && negb (Ascii.eqb (sextet_char n) pad).
End Base64.

(** A runtime to run the model on: callbacks with an even identity return
    their [this] value, those with an odd one throw their arguments. *)
Definition sample_runtime : Runtime :=
  {| base64_encode := Base64.encode;
     base64_decode := Base64.decode;
     Date_parse := fun _ => None;
     fn_apply := fun f thisObject args =>
       if Nat.even f then Returned thisObject else Threw args;
     to_string := fun e =>
       match e with
       | VPrim p => prim_to_string p
       | VUndefined => "undefined"
       | _ => "[object Object]"
       end;
     engine_TypeError :=
       VObject None
         [("message", VPrim (PStr "Cannot read property of undefined"));
          ("stack", VPrim (PStr "TypeError"))] |}.

(** ** Notions used in the statements *)

(** Serializing [v] leaves the registry alone and deserializing the
    envelope gives [v] back. *)
Definition roundtrip_at (rt : Runtime) (realmId : handle) (v : jsval) : Prop :=
  representable v = true ->
  forall reg,
    serialize rt reg realmId v = (fst (serialize rt reg realmId v), reg)
    /\ deserialize rt reg realmId (fst (serialize rt reg realmId v)) = Ok v.

(** What is stored under the remote-reference key of an object; [None] for
    a value that is not an object. *)
Definition object_handle (v : jsval) : option handle :=
  match v with
  | VDate id _ => Some id
  | VArray id _ => Some id
  | VBuffer id _ => Some id
  | VObject id _ => Some id
  | _ => None
  end.

(** The same object without the remote-reference key. *)
Definition without_handle (v : jsval) : jsval :=
  match v with
  | VDate _ time => VDate None time
  | VArray _ items => VArray None items
  | VBuffer _ bytes => VBuffer None bytes
  | VObject _ props => VObject None props
  | _ => v
  end.

(** A value to run the codec on. *)
Definition sample_value : jsval :=
  VObject None
    [("name", VPrim (PStr "realm"));
     ("created", VDate None (Some 1458777600000));
     ("tags", VArray None [VUndefined; VPrim PNull; VPrim (PBool true)]);
     ("blob", VBuffer None [Byte.x4d; Byte.x61; Byte.x6e; Byte.x00])].

(** The registry after further registrations. *)
Definition register_all (reg : list fn) (fs : list fn) : list fn :=
  fold_left (fun reg f => snd (registerCallback reg f)) fs reg.

Definition function_envelope (index : Z) : envelope :=
  Envelope (Some objectTypes.FUNCTION) (Some (WPrim (PNum index))) None None None.

Definition letters (word : string) : bool :=
  forallb is_letter (list_ascii_of_string word).

Definition request_url (host command : string) : string :=
  "http://" +:+ host +:+ "/" +:+ command.

(** The state in which the answer of the transport is awaited. *)
Definition request_state (command : string) (data : payload) (host : string)
    (st : rpc_state) : rpc_state :=
  post (request_url host command) (with_session data (clearTimeout st))
    (clearTimeout st).

Definition poll_values : list Z := [10; 20; 40; 80; 160; 320; 640; 1280].

Definition poll_ok (t : Z) : Prop := In t poll_values.

(** The poll timer firing. *)
Definition poll : api_call := call_sendRequest "callbacks_poll" [] None.

(** The transport answers with a response that asks for no callback. *)
Definition found_nothing (reply : http_reply) : bool :=
  match makeRequest reply with
  | Ok response =>
      match response_callback response with
      | None => true
      | Some _ => false
      end
  | Raise _ => false
  end.

(** The message of a structured error: the sibling [message] member with
    its type prefix removed, nothing when the member is absent or empty. *)
Definition sibling_message (r : response) : option string :=
  match resp_message r with
  | Some m => if String.eqb m EmptyString then None else Some (strip_type_prefix m)
  | None => None
  end.

(** The command of the follow-up request, as the specification words it. *)
Definition followup_command (command : string) : string :=
  if bool_decide (command = "callbacks_poll" \/ command = "callback_poll_result")
  then "callback_poll_result"
  else "callback_result".

(** The state in which the callback block of a cycle leaves the module:
    the request is posted, the poll interval updated, and the registry is
    [reg]. *)
Definition callback_state (command : string) (data : payload) (h : string)
    (callback : Z) (reg : list fn) (st : rpc_state) : rpc_state :=
  set_registeredCallbacks reg
    (set_pollTimeout (backoff (Some callback) command (pollTimeout st))
       (request_state command data h st)).

(** A structured error. *)
Definition sample_dict_error : envelope :=
  Envelope (Some "dict") None None (Some ["code"; "detail"])
    (Some
       [Envelope None (Some (WPrim (PNum 7))) None None None;
        Envelope (Some "dict") None None (Some ["path"])
          (Some [Envelope None (Some (WPrim (PStr "default.realm"))) None None
                   None])]).

(** Sample answers of the transport and sample states. *)
Definition empty_response : response :=
  {| resp_result := None;
     resp_error := None;
     resp_message := None;
     resp_callback := None;
     resp_this := None;
     resp_arguments := None;
     resp_callback_call_counter := None |}.

Definition reply_with (b : body) : http_reply :=
  {| statusCode := 200; responseText := EmptyString; parsed := Some b |}.

Definition result_reply (result : option json) : http_reply :=
  reply_with
    (BObject
       {| resp_result := result;
          resp_error := None;
          resp_message := None;
          resp_callback := None;
          resp_this := None;
          resp_arguments := None;
          resp_callback_call_counter := None |}).

Definition error_reply (error : error_field) (message : option string)
  : http_reply :=
  reply_with
    (BObject
       {| resp_result := None;
          resp_error := Some error;
          resp_message := message;
          resp_callback := None;
          resp_this := None;
          resp_arguments := None;
          resp_callback_call_counter := None |}).

Definition callback_reply (callback : Z) (this arguments : envelope)
    (counter : Z) : http_reply :=
  reply_with
    (BObject
       {| resp_result := None;
          resp_error := None;
          resp_message := None;
          resp_callback := Some callback;
          resp_this := Some this;
          resp_arguments := Some arguments;
          resp_callback_call_counter := Some counter |}).

(** The state once [createSession] has registered the function 2 as
    [refreshAccessToken] with the host [localhost]. *)
Definition session_state : rpc_state :=
  state_of
    (createSession sample_runtime [result_reply (Some (JPrim (PNum 1)))]
       2%nat (Some "localhost") initial_state).

(** The same when the listener 1 was serialized before the session was
    created. *)
Definition late_session_state : rpc_state :=
  state_of
    (createSession sample_runtime [result_reply (Some (JPrim (PNum 1)))]
       2%nat (Some "localhost")
       (set_registeredCallbacks
          (snd (serialize sample_runtime (registeredCallbacks initial_state)
                  None (VFunction 1%nat)))
          initial_state)).

(** ** Callers of the dispatcher *)

(** How a caller of [sendRequest] ends: with a value or an exception, or
    waiting for an answer that never comes. *)
Inductive finished (A : Type) :=
| Finished (r : throws A) (st : rpc_state) (rest : list http_reply)
| Unanswered (st : rpc_state).
Arguments Finished {A} r st rest.
Arguments Unanswered {A} st.

Definition final_state {A : Type} (o : finished A) : rpc_state :=
  match o with
  | Finished _ st _ => st
  | Unanswered st => st
  end.

Section Callers.
Variable rt : Runtime.

(** [deserialize(realmId, result)] for what [sendRequest] returned: reading
    [result.type] fails on [undefined] and [null]; the other primitives and
    an array have neither a [type] nor a [value]. *)
Definition deserialize_result (reg : list fn) (realmId : handle)
    (result : option json) : throws jsval :=
  match result with
  | None => Raise TypeError
  | Some (JPrim PNull) => Raise TypeError
  | Some (JPrim _) => Ok VUndefined
  | Some (JEnvelope info) => deserialize rt reg realmId info
  | Some (JEnvelopes _) => Ok VUndefined
  end.

(** The payload [{ realmId, id, name }] with further members. *)
Definition object_request (realmId : handle) (id : prim) (name : string)
    (more : payload) : payload :=
  (("realmId", optional (fun p => FValue (VPrim p)) realmId)
   :: ("id", FValue (VPrim id))
   :: ("name", FValue (VPrim (PStr name)))
   :: more)%list.

(** [callMethod(realmId, id, name, args)]; [args] is [None] when it is left
    out. *)
Definition callMethod (replies : list http_reply) (realmId : handle)
    (id : prim) (name : string) (args : option (list jsval)) (st : rpc_state)
  : finished jsval :=
  let '(arguments, reg) :=
    match args with
    | Some args =>
        let '(es, reg) :=
          Array_map (fun reg arg => serialize rt reg realmId arg)
            (registeredCallbacks st) args in
        (FJson (JEnvelopes es), reg)
    | None => (FValue VUndefined, registeredCallbacks st)
    end in
  let st := set_registeredCallbacks reg st in
  match sendRequest rt replies "call_method"
          (object_request realmId id name [("arguments", arguments)]) None st with
  | Done (Ok result) st rest =>
      Finished (deserialize_result (registeredCallbacks st) realmId result) st rest
  | Done (Raise e) st rest => Finished (Raise e) st rest
  | Waiting st => Unanswered st
  end.

(** [getProperty(realmId, id, name)]. *)
Definition getProperty (replies : list http_reply) (realmId : handle)
    (id : prim) (name : string) (st : rpc_state) : finished jsval :=
  match sendRequest rt replies "get_property" (object_request realmId id name [])
          None st with
  | Done (Ok result) st rest =>
      Finished (deserialize_result (registeredCallbacks st) realmId result) st rest
  | Done (Raise e) st rest => Finished (Raise e) st rest
  | Waiting st => Unanswered st
  end.

(** [setProperty(realmId, id, name, value)]. *)
Definition setProperty (replies : list http_reply) (realmId : handle)
    (id : prim) (name : string) (value : jsval) (st : rpc_state)
  : finished unit :=
  let '(value, reg) := serialize rt (registeredCallbacks st) realmId value in
  let st := set_registeredCallbacks reg st in
  match sendRequest rt replies "set_property"
          (object_request realmId id name [("value", FJson (JEnvelope value))])
          None st with
  | Done (Ok _) st rest => Finished (Ok tt) st rest
  | Done (Raise e) st rest => Finished (Raise e) st rest
  | Waiting st => Unanswered st
  end.

(** [createRealm(args)]; [beforeNotify] is the function of that name in this
    module. *)
Definition createRealm (replies : list http_reply) (beforeNotify : fn)
    (args : option (list jsval)) (st : rpc_state) : outcome :=
  let '(arguments, reg) :=
    match args with
    | Some args =>
        let '(es, reg) :=
          Array_map (fun reg arg => serialize rt reg (Some PNull) arg)
            (registeredCallbacks st) args in
        (FJson (JEnvelopes es), reg)
    | None => (FValue VUndefined, registeredCallbacks st)
    end in
  let '(e, reg) := serialize rt reg (Some PNull) (VFunction beforeNotify) in
  sendRequest rt replies "create_realm"
    [("arguments", arguments); ("beforeNotify", FJson (JEnvelope e))] None
    (set_registeredCallbacks reg st).

(** The body that [createUser], [_adminUser] and [_getExistingUser] share:
    the arguments are serialized, the command is sent with them, and the
    result is deserialized. *)
Definition user_call (command : string) (replies : list http_reply)
    (args : list jsval) (st : rpc_state) : finished jsval :=
  let '(es, reg) :=
    Array_map (fun reg arg => serialize rt reg (Some PNull) arg)
      (registeredCallbacks st) args in
  let st := set_registeredCallbacks reg st in
  match sendRequest rt replies command [("arguments", FJson (JEnvelopes es))]
          None st with
  | Done (Ok result) st rest =>
      Finished (deserialize_result (registeredCallbacks st) None result) st rest
  | Done (Raise e) st rest => Finished (Raise e) st rest
  | Waiting st => Unanswered st
  end.

Definition createUser := user_call "create_user".

Definition _adminUser := user_call "_adminUser".

Definition _getExistingUser := user_call "_getExistingUser".

(** [reconnect(args)]. *)
Definition reconnect (replies : list http_reply) (st : rpc_state)
  : finished unit :=
  match sendRequest rt replies "reconnect" [("arguments", FJson (JEnvelopes []))]
          None st with
  | Done (Ok _) st rest => Finished (Ok tt) st rest
  | Done (Raise e) st rest => Finished (Raise e) st rest
  | Waiting st => Unanswered st
  end.

(** [_initializeSyncManager(args)]. *)
Definition _initializeSyncManager (replies : list http_reply)
    (args : list jsval) (st : rpc_state) : finished unit :=
  let '(es, reg) :=
    Array_map (fun reg arg => serialize rt reg (Some PNull) arg)
      (registeredCallbacks st) args in
  let st := set_registeredCallbacks reg st in
  match sendRequest rt replies "_initializeSyncManager"
          [("arguments", FJson (JEnvelopes es))] None st with
  | Done (Ok _) st rest => Finished (Ok tt) st rest
  | Done (Raise e) st rest => Finished (Raise e) st rest
  | Waiting st => Unanswered st
  end.

(** [hasExistingSessions(args)]. *)
Definition hasExistingSessions (replies : list http_reply) (st : rpc_state)
  : finished jsval :=
  match sendRequest rt replies "_hasExistingSessions"
          [("arguments", FJson (JEnvelopes []))] None st with
  | Done (Ok result) st rest =>
      Finished (deserialize_result (registeredCallbacks st) None result) st rest
  | Done (Raise e) st rest => Finished (Raise e) st rest
  | Waiting st => Unanswered st
  end.

(** [getAllUsers()]: the request carries no data. *)
Definition getAllUsers (replies : list http_reply) (st : rpc_state)
  : finished jsval :=
  match sendRequest rt replies "get_all_users" [] None st with
  | Done (Ok result) st rest =>
      Finished (deserialize_result (registeredCallbacks st) None result) st rest
  | Done (Raise e) st rest => Finished (Raise e) st rest
  | Waiting st => Unanswered st
  end.
End Callers.

(** ** Further notions used in the statements *)

(** What [deserialize] makes of a serialized value on this side: an object
    that carries a truthy remote-reference handle comes back as
    [undefined], any other object as a copy without the key. *)
Fixpoint local_copy (v : jsval) : jsval :=
  match v with
  | VDate id time => if truthy_handle id then VUndefined else VDate None time
  | VArray id items =>
      if truthy_handle id then VUndefined
      else VArray None (map local_copy items)
  | VBuffer id bytes =>
      if truthy_handle id then VUndefined else VBuffer None bytes
  | VObject id props =>
      if truthy_handle id then VUndefined
      else VObject None (map (fun kv => (fst kv, local_copy (snd kv))) props)
  | _ => v
  end.

(** The invariants of the values themselves, wherever [serialize] looks:
    time values a date can hold, and keys that are pairwise different
    within each object. *)
Fixpoint well_formed (v : jsval) : bool :=
  match v with
  | VDate id time => truthy_handle id || in_date_range time
  | VArray id items => truthy_handle id || forallb well_formed items
  | VObject id props =>
      truthy_handle id
      || (bool_decide (NoDup (map fst props))
          && forallb (fun kv => well_formed (snd kv)) props)
  | _ => true
  end.

(** The registry [reg'] continues the registry [reg]: nothing is removed or
    moved, and no duplicate appears. *)
Definition continues (reg reg' : list fn) : Prop :=
  (exists ext, reg' = (reg ++ ext)%list) /\ (NoDup reg -> NoDup reg').

(** Nested dictionaries whose leaves are [undefined], primitives and dates. *)
Fixpoint plain_data (v : jsval) : bool :=
  match v with
  | VUndefined => true
  | VPrim _ => true
  | VDate id _ => negb (truthy_handle id)
  | VObject id props =>
      negb (truthy_handle id) && bool_decide (NoDup (map fst props))
      && forallb (fun kv => plain_data (snd kv)) props
  | _ => false
  end.

(** What [deserialize_json_value] makes of such data once serialized: a date
    stays the number it was sent as. *)
Fixpoint error_view (v : jsval) : error_value :=
  match v with
  | VPrim p => EPrim p
  | VDate _ time => EPrim (getTime time)
  | VObject _ props =>
      EObject (map (fun kv => (fst kv, error_view (snd kv))) props)
  | _ => EUndefined
  end.

(** The timers are numbered as [setTimeout] numbers them: every pending
    timer and the one on record are older than the next one. *)
Definition timers_numbered (st : rpc_state) : Prop :=
  (forall t, t ∈ timers st -> (fst t < next_timer st)%nat)
  /\ (forall id, pollTimeoutId st = Some id -> (id < next_timer st)%nat).

(** The answers a call has used up, given those it left. *)
Definition used_up (replies rest : list http_reply) (n : nat) : Prop :=
  exists used, replies = (used ++ rest)%list /\ length used = n.

(** ** Every call into the module *)

(** The exported functions that are modelled: the three of [api_call] and
    the callers of [sendRequest] above. *)
Inductive module_call :=
| call_api (c : api_call)
| call_createRealm (args : option (list jsval))
| call_createUser (args : list jsval)
| call_adminUser (args : list jsval)
| call_getExistingUser (args : list jsval)
| call_reconnect
| call_initializeSyncManager (args : list jsval)
| call_hasExistingSessions
| call_callMethod (realmId : handle) (id : prim) (name : string)
    (args : option (list jsval))
| call_getProperty (realmId : handle) (id : prim) (name : string)
| call_setProperty (realmId : handle) (id : prim) (name : string)
    (value : jsval)
| call_getAllUsers.

(** The state a call leaves and the answers the transport has still to
    give; [None] when the call waits for ever. *)
Definition left_after (o : outcome) : rpc_state * option (list http_reply) :=
  match o with
  | Done _ st rest => (st, Some rest)
  | Waiting st => (st, None)
  end.

Definition left_by {A : Type} (o : finished A)
  : rpc_state * option (list http_reply) :=
  match o with
  | Finished _ st rest => (st, Some rest)
  | Unanswered st => (st, None)
  end.

Definition run_module_call (rt : Runtime) (beforeNotify : fn)
    (replies : list http_reply) (c : module_call) (st : rpc_state)
  : rpc_state * option (list http_reply) :=
  match c with
  | call_api c => left_after (run_call rt replies c st)
  | call_createRealm args =>
      left_after (createRealm rt replies beforeNotify args st)
  | call_createUser args => left_by (createUser rt replies args st)
  | call_adminUser args => left_by (_adminUser rt replies args st)
  | call_getExistingUser args => left_by (_getExistingUser rt replies args st)
  | call_reconnect => left_by (reconnect rt replies st)
  | call_initializeSyncManager args =>
      left_by (_initializeSyncManager rt replies args st)
  | call_hasExistingSessions => left_by (hasExistingSessions rt replies st)
  | call_callMethod realmId id name args =>
      left_by (callMethod rt replies realmId id name args st)
  | call_getProperty realmId id name =>
      left_by (getProperty rt replies realmId id name st)
  | call_setProperty realmId id name value =>
      left_by (setProperty rt replies realmId id name value st)
  | call_getAllUsers => left_by (getAllUsers rt replies st)
  end.

(** The state after a sequence of calls, one after the other, each taking
    the answers the one before left. *)
Fixpoint run_module_calls (rt : Runtime) (beforeNotify : fn)
    (calls : list module_call) (replies : list http_reply) (st : rpc_state)
  : rpc_state :=
  match calls with
  | [] => st
  | c :: more =>
      match run_module_call rt beforeNotify replies c st with
      | (st', Some rest) => run_module_calls rt beforeNotify more rest st'
      | (st', None) => st'
      end
  end.

(** ** Notions for the codec and the transport *)

(** Deserializing what [serialize] made of [v] gives [local_copy v], in the
    registry [serialize] leaves and in every one that continues it. *)
Definition copies (rt : Runtime) (realmId : handle) (v : jsval) : Prop :=
  well_formed v = true ->
  forall reg ext,
    deserialize rt (snd (serialize rt reg realmId v) ++ ext) realmId
      (fst (serialize rt reg realmId v))
    = Ok (local_copy v).

(** A value that is well formed, holds no remote reference, and whose
    functions are all in the registry [reg]: serializing it registers
    nothing. *)
Definition settled (rt : Runtime) (reg : list fn) (realmId : handle)
    (v : jsval) : Prop :=
  well_formed v = true
  /\ local_copy v = v
  /\ snd (serialize rt reg realmId v) = reg.

(** The envelope of a dictionary with the given keys. *)
Definition dict_info (keys : list string) (values : option (list envelope))
  : envelope :=
  Envelope (Some objectTypes.DICT) None None (Some keys) values.

(** What [deserialize_json_value] stores for one value of a dictionary. *)
Definition json_member (propValue : envelope) : throws error_value :=
  if is_dict (env_type propValue) then
    match deserialize_json_value propValue with
    | Raise e => Raise e
    | Ok nested => Ok (EObject nested)
    end
  else Ok (raw_value (env_value propValue)).

(** The exception of a call made before a host is known. *)
Definition no_session : exn :=
  ErrorObject
    (new_Error (Some "Must first create RPC session with a valid host")).

(** The exception [makeRequest] leaves with when the transport fails: the
    status is not 200, or the text is not JSON. *)
Definition transport_exception (reply : http_reply) : exn :=
  if statusCode reply =? 200 then SyntaxError
  else ErrorObject (new_Error (Some (responseText reply))).

(** Induction on envelopes, through the arrays they hold. *)
Definition wire_all (P : envelope -> Prop) (value : option wire) : Prop :=
  match value with
  | Some (WArray items) => Forall P items
  | _ => True
  end.

Definition values_all (P : envelope -> Prop) (values : option (list envelope))
  : Prop :=
  match values with
  | Some values => Forall P values
  | None => True
  end.

Section envelope_induction.
Variable P : envelope -> Prop.
Hypothesis P_envelope :
  forall type value id keys values,
    wire_all P value -> values_all P values ->
    P (Envelope type value id keys values).

Fixpoint envelope_ind (e : envelope) : P e :=
  match e with
  | Envelope type value id keys values =>
      P_envelope type value id keys values
        (match value as w return wire_all P w with
         | Some (WArray items) =>
             (fix all (l : list envelope) : Forall P l :=
                match l with
                | [] => @List.Forall_nil _ P
                | x :: rest =>
                    @List.Forall_cons _ P x rest (envelope_ind x) (all rest)
                end) items
         | Some (WPrim _) => I
         | None => I
         end)
        (match values as vs return values_all P vs with
         | Some values =>
             (fix all (l : list envelope) : Forall P l :=
                match l with
                | [] => @List.Forall_nil _ P
                | x :: rest =>
                    @List.Forall_cons _ P x rest (envelope_ind x) (all rest)
                end) values
         | None => I
         end)
  end.
End envelope_induction.

(** A listener, two proxies of remote objects, and plain data around
    them. *)
Definition sample_mixed_value : jsval :=
  VObject None
    [("onChange", VFunction 9%nat);
     ("owner", VObject (Some (PNum 17)) [("cached", VFunction 4%nat)]);
     ("rows", VArray None [VPrim (PNum 1); VFunction 9%nat]);
     ("parent", VArray (Some (PStr "list-3")) [])].

(** A dictionary as a peer may send it: a key that occurs twice, a value
    that no key names, a date, and the handle of a registered callback. *)
Definition sample_received : envelope :=
  Envelope (Some "dict") None None (Some ["a"; "b"; "a"])
    (Some
       [Envelope None (Some (WPrim (PNum 1))) None None None;
        Envelope (Some "date") (Some (WPrim (PNum 1458777600000))) None None
          None;
        Envelope (Some "function") (Some (WPrim (PNum 1))) None None None;
        Envelope None (Some (WPrim PNull)) None None None]).

(** A transport that answers with a server error. *)
Definition failed_reply : http_reply :=
  {| statusCode := 500;
     responseText := "Internal Server Error";
     parsed := None |}.

(** The value [42] and the empty argument list as the peer sends them. *)
Definition sample_this : envelope :=
  Envelope None (Some (WPrim (PNum 42))) None None None.

Definition sample_arguments : envelope :=
  Envelope None (Some (WArray [])) None None None.

(** * Properties of property lists *)

Lemma obj_get_set_eq {A : Type} (k : string) (x : A) (o : list (string * A)) :
  obj_get k (obj_set k x o) = Some x.
Proof.
  induction o as [|[k' y] o IH]; simpl.
  - by rewrite String.eqb_refl.
  - destruct (String.eqb_spec k k') as [->|Hne]; simpl.
    + by rewrite String.eqb_refl.
    + by destruct (String.eqb_spec k k').
Qed.

Lemma obj_get_set_ne {A : Type} (k k' : string) (x : A) (o : list (string * A)) :
  k <> k' -> obj_get k' (obj_set k x o) = obj_get k' o.
Proof.
  intros Hne. induction o as [|[k1 y] o IH]; simpl.
  - by destruct (String.eqb_spec k' k).
  - destruct (String.eqb_spec k k1) as [->|Hne1]; simpl.
    + by destruct (String.eqb_spec k' k1).
    + by rewrite IH.
Qed.

Lemma obj_set_keys {A : Type} (k : string) (x : A) (o : list (string * A)) :
  map fst (obj_set k x o)
  = if decide (k ∈ map fst o) then map fst o else (map fst o ++ [k])%list.
Proof.
  induction o as [|[k' y] o IH]; cbn [obj_set map fst].
  { by rewrite decide_False by apply not_elem_of_nil. }
  destruct (String.eqb_spec k k') as [->|Hne]; cbn [map fst].
  - by rewrite decide_True by left.
  - rewrite IH. destruct (decide (k ∈ map fst o)) as [Hin|Hout].
    + by rewrite decide_True by (by right).
    + rewrite decide_False; [done|].
      intros [?|?]%elem_of_cons; done.
Qed.

Lemma obj_set_NoDup {A : Type} (k : string) (x : A) (o : list (string * A)) :
  NoDup (map fst o) -> NoDup (map fst (obj_set k x o)).
Proof.
  intros Hnd. rewrite obj_set_keys. case_decide; [done|].
  apply NoDup_app. split; [done|]. split; [|apply NoDup_singleton].
  intros k' Hk' ->%list_elem_of_singleton. done.
Qed.

Lemma dict_loop_NoDup {A B : Type} (f : A -> throws B) (values : list A) :
  forall keys acc object,
    dict_loop f values keys acc = Ok object ->
    NoDup (map fst acc) -> NoDup (map fst object).
Proof.
  induction values as [|item values IH]; intros [|k keys] acc object; simpl;
    try (by intros [= <-]); try discriminate.
  destruct (f item) as [y|e]; [|discriminate].
  intros Hloop Hnd. apply (IH _ _ _ Hloop). by apply obj_set_NoDup.
Qed.

Lemma deserialize_json_value_NoDup (value : envelope)
    (fields : list (string * error_value)) :
  deserialize_json_value value = Ok fields -> NoDup (map fst fields).
Proof.
  destruct value as [type value id [[|k keys]|] values]; simpl;
    try discriminate.
  - intros [= <-]. apply NoDup_nil_2.
  - destruct values as [values|]; [|discriminate].
    intros Hloop. apply (dict_loop_NoDup _ _ _ _ _ Hloop). apply NoDup_nil_2.
Qed.

Lemma Object_assign_other {A : Type} (k : string) (source : list (string * A)) :
  forall target,
    k ∉ map fst source ->
    obj_get k (Object_assign target source) = obj_get k target.
Proof.
  unfold Object_assign.
  induction source as [|[k' v] source IH]; intros target Hk; simpl; [done|].
  simpl in Hk. apply not_elem_of_cons in Hk as [Hne Hk].
  rewrite IH by done. by apply obj_get_set_ne.
Qed.

Lemma Object_assign_copied {A : Type} (k : string) (v : A)
    (source : list (string * A)) :
  forall target,
    NoDup (map fst source) -> (k, v) ∈ source ->
    obj_get k (Object_assign target source) = Some v.
Proof.
  induction source as [|[k' v'] source IH]; intros target Hnd Hin.
  - by apply elem_of_nil in Hin.
  - simpl in Hnd. apply NoDup_cons in Hnd as [Hk' Hnd].
    apply elem_of_cons in Hin as [[= -> ->]|Hin].
    + change (Object_assign target ((k', v') :: source))
        with (Object_assign (obj_set k' v' target) source).
      rewrite Object_assign_other by done. apply obj_get_set_eq.
    + change (Object_assign target ((k', v') :: source))
        with (Object_assign (obj_set k' v' target) source).
      by apply IH.
Qed.

(** * The type prefix of an error message *)

Lemma skip_letters_word (word rest : string) :
  letters word = true ->
  skip_letters (word +:+ ": " +:+ rest) = ": " +:+ rest.
Proof.
  induction word as [|c word IH]; intros Hw; [reflexivity|].
  unfold letters in Hw. simpl in Hw. apply andb_prop in Hw as [Hc Hw].
  simpl. rewrite Hc. by apply IH.
Qed.

Lemma strip_type_prefix_word (word message : string) :
  word <> EmptyString -> letters word = true ->
  strip_type_prefix (word +:+ ": " +:+ message) = message.
Proof.
  intros Hne Hw. destruct word as [|c word]; [done|].
  pose proof (skip_letters_word (String c word) message Hw) as Hskip.
  unfold letters in Hw. simpl in Hw. apply andb_prop in Hw as [Hc _].
  unfold strip_type_prefix.
  change (String c word +:+ ": " +:+ message)
    with (String c (word +:+ ": " +:+ message)) in *.
  cbv beta iota. rewrite Hc, Hskip. reflexivity.
Qed.

Lemma strip_type_prefix_unprefixed (c : ascii) (s : string) :
  is_letter c = false -> strip_type_prefix (String c s) = String c s.
Proof. intros Hc. unfold strip_type_prefix. by rewrite Hc. Qed.

(** * Properties of the codec *)

Lemma obj_set_fresh {A : Type} (k : string) (x : A) (o : list (string * A)) :
  k ∉ map fst o -> obj_set k x o = (o ++ [(k, x)])%list.
Proof.
  induction o as [|[k' y] o IH]; intros Hk; simpl; [reflexivity|].
  simpl in Hk. apply not_elem_of_cons in Hk as [Hne Hk].
  destruct (String.eqb_spec k k') as [->|_]; [congruence|].
  by rewrite IH.
Qed.

Lemma dict_loop_rebuild {A B : Type} (f : A -> throws B)
    (values : list A) (props acc : list (string * B)) :
  Forall2 (fun item kv => f item = Ok (snd kv)) values props ->
  NoDup (map fst acc ++ map fst props) ->
  dict_loop f values (map fst props) acc = Ok (acc ++ props)%list.
Proof.
  intros Hall. revert acc.
  induction Hall as [|item [k y] values props Hf _ IH]; intros acc Hnd; simpl.
  - by rewrite app_nil_r.
  - simpl in Hf. rewrite Hf.
    simpl in Hnd. apply NoDup_app in Hnd as (Hacc & Hdisj & Hprops).
    rewrite obj_set_fresh.
    2:{ intros Hin. apply (Hdisj _ Hin). left. }
    rewrite IH.
    + by rewrite <- app_assoc.
    + rewrite map_app. simpl. rewrite <- app_assoc. simpl.
      apply NoDup_app. split; [done|]. split; [|done].
      intros x Hx. by apply Hdisj.
Qed.

(** The converter table as the tags find it. *)
Lemma find_handler_undefined : find_handler (Some objectTypes.UNDEFINED) = None.
Proof. reflexivity. Qed.
Lemma find_handler_date : find_handler (Some objectTypes.DATE) = Some new_date.
Proof. reflexivity. Qed.
Lemma find_handler_data : find_handler (Some objectTypes.DATA) = Some decode_data.
Proof. reflexivity. Qed.
Lemma find_handler_dict :
  find_handler (Some objectTypes.DICT) = Some deserializeDict_handler.
Proof. reflexivity. Qed.
Lemma find_handler_function :
  find_handler (Some objectTypes.FUNCTION) = Some deserializeFunction_handler.
Proof. reflexivity. Qed.

(** The round trip, for a runtime whose Base64 helpers decode what they
    encode. *)
Section Roundtrip.
Variable rt : Runtime.
Hypothesis base64_decode_encode :
  forall bytes, base64_decode rt (base64_encode rt bytes) = bytes.
Variable realmId : handle.

Lemma no_handle_falsy id : no_handle id = true -> id = None.
Proof. by destruct id. Qed.

Lemma serialize_items_roundtrip {A : Type} (proj : A -> jsval)
    (items : list A) (reg : list fn) :
  Forall (fun x => roundtrip_at rt realmId (proj x)) items ->
  forallb (fun x => representable (proj x)) items = true ->
  exists es,
    Array_map (fun reg x => serialize rt reg realmId (proj x)) reg items
      = (es, reg)
    /\ Forall2 (fun e x => deserialize rt reg realmId e = Ok (proj x)) es items.
Proof.
  induction 1 as [|x items Hx _ IH]; simpl; intros Hrep.
  - exists []. split; [reflexivity|constructor].
  - apply andb_prop in Hrep as [Hrx Hrest].
    destruct (Hx Hrx reg) as [Hs Hd].
    destruct (IH Hrest) as (es & Hes & Hall).
    rewrite Hs, Hes. eexists. split; [reflexivity|].
    constructor; [exact Hd|exact Hall].
Qed.

Lemma Array_map_throws_all {A B : Type} (f : A -> throws B) es items :
  Forall2 (fun e x => f e = Ok x) es items ->
  Array_map_throws f es = Ok items.
Proof.
  induction 1 as [|e x es items He _ IH]; simpl; [reflexivity|].
  by rewrite He, IH.
Qed.

Lemma TimeClip_in_range t : in_date_range (Some t) = true -> TimeClip t = Some t.
Proof. unfold in_date_range, TimeClip. by intros ->. Qed.

Lemma serialize_deserialize_all v : roundtrip_at rt realmId v.
Proof.
  induction v as [|p|f|id time|id items IH|id bytes|id props IH]
    using jsval_ind; intros Hrep reg; simpl in Hrep.
  - split; reflexivity.
  - split; reflexivity.
  - discriminate.
  - apply andb_prop in Hrep as [Hid Hrange].
    apply no_handle_falsy in Hid as ->. simpl. split; [reflexivity|].
    destruct time as [t|]; simpl; [|reflexivity].
    by rewrite (TimeClip_in_range t Hrange).
  - apply andb_prop in Hrep as [Hid Hitems].
    apply no_handle_falsy in Hid as ->.
    destruct (serialize_items_roundtrip (fun x => x) items reg IH Hitems)
      as (es & Hes & Hall).
    cbn [serialize truthy_handle]. rewrite Hes. cbn [fst].
    split; [reflexivity|].
    cbn [deserialize plain_envelope find_handler].
    by rewrite (Array_map_throws_all _ _ _ Hall).
  - apply no_handle_falsy in Hrep as ->. simpl. split; [reflexivity|].
    by rewrite base64_decode_encode.
  - apply andb_prop in Hrep as [Hrep Hprops].
    apply andb_prop in Hrep as [Hid Hnd].
    apply no_handle_falsy in Hid as ->.
    apply bool_decide_eq_true in Hnd.
    destruct (serialize_items_roundtrip snd props reg IH Hprops)
      as (es & Hes & Hall).
    cbn [serialize truthy_handle]. rewrite Hes. cbn [fst].
    split; [reflexivity|].
    cbn [deserialize]. rewrite find_handler_dict.
    destruct props as [|kv props].
    + reflexivity.
    + rewrite (dict_loop_rebuild _ es (kv :: props) [] Hall Hnd).
      reflexivity.
Qed.
End Roundtrip.

(** The Base64 codec of this file decodes what it encodes. *)
Module Base64Facts.
Import Base64.

Lemma sextets_ok : forallb Base64.sextet_ok (map N.of_nat (seq 0 64)) = true.
Proof. vm_compute. reflexivity. Qed.

Lemma sextet_roundtrip (n : N) :
  (n < 64)%N ->
  char_sextet (sextet_char n) = n /\ Ascii.eqb (sextet_char n) pad = false.
Proof.
  intros Hn.
  assert (Hin : In n (map N.of_nat (seq 0 64))).
  { apply in_map_iff. exists (N.to_nat n). split; [lia|].
    apply in_seq. lia. }
  pose proof (proj1 (forallb_forall _ _) sextets_ok n Hin) as Hok.
  unfold Base64.sextet_ok in Hok. apply andb_prop in Hok as [H1 H2].
  split; [by apply N.eqb_eq|by apply negb_true_iff].
Qed.

Lemma byte_of_to_N (b : Byte.byte) (n : N) : n = Byte.to_N b -> byte_of n = b.
Proof. intros ->. unfold byte_of. by rewrite Byte.of_to_N. Qed.

Local Ltac Zify.zify_post_hook ::= Z.to_euclidean_division_equations.

Lemma decode_encode_upto (n : nat) (bytes : list Byte.byte) :
  (length bytes <= n)%nat -> decode (encode bytes) = bytes.
Proof.
  revert bytes.
  induction n as [|n IH]; intros bytes Hlen.
  { destruct bytes; [reflexivity|simpl in Hlen; lia]. }
  destruct bytes as [|a [|b [|c rest]]]; [reflexivity|..];
    pose proof (Byte.to_N_bounded a) as Ha.
  - cbn [encode decode].
    destruct (sextet_roundtrip (Byte.to_N a / 4)) as [-> _]; [lia|].
    destruct (sextet_roundtrip (Byte.to_N a mod 4 * 16)) as [-> _]; [lia|].
    rewrite Ascii.eqb_refl. f_equal. apply byte_of_to_N. lia.
  - pose proof (Byte.to_N_bounded b) as Hb.
    cbn [encode decode].
    destruct (sextet_roundtrip (Byte.to_N a / 4)) as [-> _]; [lia|].
    destruct (sextet_roundtrip (Byte.to_N a mod 4 * 16 + Byte.to_N b / 16))
      as [-> _]; [lia|].
    destruct (sextet_roundtrip (Byte.to_N b mod 16 * 4)) as [-> ->]; [lia|].
    rewrite Ascii.eqb_refl.
    f_equal; [|f_equal]; apply byte_of_to_N; lia.
  - pose proof (Byte.to_N_bounded b) as Hb.
    pose proof (Byte.to_N_bounded c) as Hc.
    cbn [encode decode].
    destruct (sextet_roundtrip (Byte.to_N a / 4)) as [-> _]; [lia|].
    destruct (sextet_roundtrip (Byte.to_N a mod 4 * 16 + Byte.to_N b / 16))
      as [-> _]; [lia|].
    destruct (sextet_roundtrip (Byte.to_N b mod 16 * 4 + Byte.to_N c / 64))
      as [-> ->]; [lia|].
    destruct (sextet_roundtrip (Byte.to_N c mod 64)) as [-> ->]; [lia|].
    rewrite IH by (simpl in Hlen; lia).
    f_equal; [|f_equal; [|f_equal]]; apply byte_of_to_N; lia.
Qed.

Lemma decode_encode (bytes : list Byte.byte) : decode (encode bytes) = bytes.
Proof. apply (decode_encode_upto (length bytes)). lia. Qed.
End Base64Facts.

(** ** Round trip *)



(** ** Remote-reference passthrough *)



(** * Properties of the callback registry *)

Lemma indexOf_from_absent (f : fn) (l : list fn) (i : Z) :
  f ∉ l -> indexOf_from f l i = -1.
Proof.
  revert i. induction l as [|g l IH]; intros i Hf; simpl; [reflexivity|].
  apply not_elem_of_cons in Hf as [Hne Hf].
  destruct (Nat.eqb_spec g f) as [->|_]; [congruence|]. by apply IH.
Qed.

Lemma indexOf_from_present (f : fn) (l : list fn) (i : Z) :
  f ∈ l ->
  exists k : nat,
    indexOf_from f l i = i + Z.of_nat k /\ l !! k = Some f.
Proof.
  revert i. induction l as [|g l IH]; intros i Hf; simpl.
  - by apply elem_of_nil in Hf.
  - destruct (Nat.eqb_spec g f) as [->|Hne].
    + exists 0%nat. split; [lia|reflexivity].
    + apply elem_of_cons in Hf as [->|Hf]; [congruence|].
      destruct (IH (i + 1) Hf) as (k & Hk & Hl).
      exists (S k). split; [lia|exact Hl].
Qed.

Lemma indexOf_from_app (f : fn) (l ext : list fn) (i : Z) :
  f ∈ l -> indexOf_from f (l ++ ext) i = indexOf_from f l i.
Proof.
  revert i. induction l as [|g l IH]; intros i Hf; simpl.
  - by apply elem_of_nil in Hf.
  - destruct (Nat.eqb_spec g f) as [->|Hne]; [reflexivity|].
    apply elem_of_cons in Hf as [->|Hf]; [congruence|]. by apply IH.
Qed.

Lemma array_get_Some {A : Type} (l : list A) (n : Z) (x : A) :
  array_get l n = Some x <-> 0 <= n /\ l !! Z.to_nat n = Some x.
Proof.
  unfold array_get. destruct (Z.ltb_spec n 0); split.
  - discriminate.
  - intros [? _]. lia.
  - intros. split; [lia|done].
  - by intros [_ ?].
Qed.

Lemma array_get_app {A : Type} (l ext : list A) (n : Z) (x : A) :
  array_get l n = Some x -> array_get (l ++ ext) n = Some x.
Proof.
  rewrite !array_get_Some. intros [? Hl]. split; [done|].
  by apply lookup_app_l_Some.
Qed.

(** What one registration establishes. *)
Lemma registerCallback_spec (reg : list fn) (f : fn) :
  exists ext,
    snd (registerCallback reg f) = (reg ++ ext)%list
    /\ fst (registerCallback reg f) = indexOf f (reg ++ ext)
    /\ array_get (reg ++ ext) (fst (registerCallback reg f)) = Some f
    /\ f ∈ (reg ++ ext)%list.
Proof.
  unfold registerCallback.
  destruct (decide (f ∈ reg)) as [Hin|Hout].
  - destruct (indexOf_from_present f reg 0 Hin) as (k & Hk & Hl).
    unfold indexOf. rewrite Hk.
    destruct (Z.leb_spec 0 (0 + Z.of_nat k)); [|lia].
    exists []. rewrite app_nil_r. simpl. rewrite Hk.
    repeat split; [|done].
    apply array_get_Some. split; [lia|].
    by replace (Z.to_nat (0 + Z.of_nat k)) with k by lia.
  - unfold indexOf. rewrite indexOf_from_absent by done. simpl.
    exists [f]. repeat split.
    + assert (Hin : f ∈ (reg ++ [f])%list) by (apply elem_of_app; right; left).
      destruct (indexOf_from_present f (reg ++ [f]) 0 Hin) as (k & Hk & Hl).
      rewrite Hk.
      assert (k = length reg); [|subst; rewrite length_app; simpl; lia].
      destruct (decide (k < length reg)%nat) as [Hlt|Hge].
      * rewrite lookup_app_l in Hl by done.
        exfalso. apply Hout. by eapply list_elem_of_lookup_2.
      * apply lookup_lt_Some in Hl. rewrite length_app in Hl. simpl in Hl. lia.
    + apply array_get_Some. split; [rewrite length_app; simpl; lia|].
      rewrite length_app. simpl.
      replace (Z.to_nat (Z.of_nat (length reg + 1) - 1)) with (length reg) by lia.
      by apply list_lookup_middle.
    + apply elem_of_app. right. left.
Qed.

(** Registering a function that is in the registry changes nothing and
    returns its first position. *)
Lemma registerCallback_known (reg : list fn) (f : fn) :
  f ∈ reg -> registerCallback reg f = (indexOf f reg, reg).
Proof.
  intros Hin. unfold registerCallback.
  destruct (indexOf_from_present f reg 0 Hin) as (k & Hk & _).
  unfold indexOf. rewrite Hk.
  by destruct (Z.leb_spec 0 (0 + Z.of_nat k)); [|lia].
Qed.

Lemma register_all_extends (fs : list fn) (reg : list fn) :
  exists ext, register_all reg fs = (reg ++ ext)%list.
Proof.
  revert reg. induction fs as [|f fs IH]; intros reg; simpl.
  - exists []. by rewrite app_nil_r.
  - destruct (registerCallback_spec reg f) as (ext1 & -> & _).
    destruct (IH (reg ++ ext1)%list) as (ext2 & ->).
    exists (ext1 ++ ext2)%list. by rewrite app_assoc.
Qed.


(** ** Registry reset *)

Lemma clear_callbacks_elem (P : gset fn) (reg : list fn) (f : fn) :
  f ∈ clear_callbacks P reg <-> f ∈ reg /\ f ∈ P.
Proof. unfold clear_callbacks. rewrite list_elem_of_filter. tauto. Qed.

Lemma clear_callbacks_none (P : gset fn) (reg : list fn) :
  (forall g, g ∈ reg -> g ∉ P) -> clear_callbacks P reg = [].
Proof.
  unfold clear_callbacks. induction reg as [|g reg IH]; intros Hall; [done|].
  rewrite filter_cons_False by (apply Hall; left).
  apply IH. intros h Hh. apply Hall. by right.
Qed.

Lemma clear_callbacks_short (P : gset fn) (reg : list fn) (i : nat) (f : fn) :
  reg !! i = Some f -> f ∉ P ->
  (forall j g, (i < j)%nat -> reg !! j = Some g -> g ∉ P) ->
  (length (clear_callbacks P reg) <= i)%nat.
Proof.
  intros Hi Hf Hafter.
  rewrite <- (take_drop_middle reg i f Hi).
  unfold clear_callbacks. rewrite filter_app, filter_cons_False by done.
  fold (clear_callbacks P (drop (S i) reg)).
  rewrite clear_callbacks_none.
  - rewrite app_nil_r. etrans; [apply length_filter|]. rewrite length_take. lia.
  - intros g Hg. apply list_elem_of_lookup in Hg as [k Hk].
    rewrite lookup_drop in Hk. apply (Hafter (S i + k)%nat); [lia|done].
Qed.

Lemma clear_callbacks_all (P : gset fn) (reg : list fn) :
  (forall g, g ∈ reg -> g ∈ P) -> clear_callbacks P reg = reg.
Proof.
  unfold clear_callbacks. induction reg as [|g reg IH]; intros Hall; [done|].
  rewrite filter_cons_True by (apply Hall; left).
  f_equal. apply IH. intros h Hh. apply Hall. by right.
Qed.

(** Persistent callbacks that were registered before every other callback
    keep their indices through the reset. *)
Lemma clear_callbacks_initial (P : gset fn) (reg : list fn) (n : nat) (i : Z) :
  (forall g, g ∈ take n reg -> g ∈ P) ->
  i < Z.of_nat n ->
  array_get (clear_callbacks P reg) i = array_get reg i.
Proof.
  intros Hall Hi. unfold array_get. destruct (Z.ltb_spec i 0); [done|].
  rewrite <- (take_drop n reg) at 1. unfold clear_callbacks.
  rewrite filter_app. fold (clear_callbacks P (take n reg)).
  rewrite clear_callbacks_all by done.
  destruct (decide (Z.to_nat i < length (take n reg))%nat) as [Hlt|Hge].
  - rewrite lookup_app_l by done. apply lookup_take_lt. lia.
  - rewrite length_take in Hge.
    assert (Hlen : (length reg <= Z.to_nat i)%nat) by lia.
    rewrite (lookup_ge_None_2 reg) by done.
    apply lookup_ge_None_2. rewrite length_app, length_take.
    pose proof (length_filter (fun cb => cb ∈ P) (drop n reg)) as Hf.
    rewrite length_drop in Hf. lia.
Qed.

Lemma state_of_set_registeredCallbacks reg st :
  registeredCallbacks (set_registeredCallbacks reg st) = reg.
Proof. reflexivity. Qed.

(** C3, as amended.  After [clearTestState] has returned, the registry
    holds exactly the entries that carry the persistence mark, in their
    order: every other entry is removed.  A handle that referred to a
    removed entry never resolves to that entry again, and it is unresolved
    ([undefined]) whenever no persistent entry was registered after it; the
    retained entries are renumbered, so that such a handle can otherwise
    resolve to one of them. *)
Theorem clearTestState_registry (rt : Runtime) (replies rest : list http_reply)
    (st st' : rpc_state) (r : option json) :
  clearTestState rt replies st = Done (Ok r) st' rest ->
  exists st1 r1,
    sendRequest rt replies "clear_test_state" [] None st = Done (Ok r1) st1 rest
    /\ registeredCallbacks st'
       = clear_callbacks (persistentCallback st1) (registeredCallbacks st1)
    /\ (forall f, f ∈ registeredCallbacks st'
                  <-> f ∈ registeredCallbacks st1 /\ f ∈ persistentCallback st1)
    /\ (forall i f,
          array_get (registeredCallbacks st1) i = Some f ->
          f ∉ persistentCallback st1 ->
          array_get (registeredCallbacks st') i <> Some f
          /\ ((forall j g, i < j ->
                 array_get (registeredCallbacks st1) j = Some g ->
                 g ∉ persistentCallback st1) ->
              array_get (registeredCallbacks st') i = None
              /\ deserializeFunction (registeredCallbacks st') (function_envelope i)
                 = VUndefined)).
Proof.
  unfold clearTestState.
  destruct (sendRequest rt replies "clear_test_state" [] None st)
    as [[r1|e] st1 rest1|st1] eqn:Hsend; [|discriminate..].
  intros [= <- <- <-]. exists st1, r1.
  rewrite state_of_set_registeredCallbacks.
  split; [reflexivity|]. split; [reflexivity|].
  split; [apply clear_callbacks_elem|].
  intros i f Hi Hf. split.
  - intros Hget. apply array_get_Some in Hget as [_ Hget].
    apply list_elem_of_lookup_2 in Hget.
    apply clear_callbacks_elem in Hget as [_ ?]. done.
  - intros Hafter. apply array_get_Some in Hi as [Hi0 Hi].
    assert (Hnone : array_get (clear_callbacks (persistentCallback st1)
                                 (registeredCallbacks st1)) i = None).
    { unfold array_get. destruct (Z.ltb_spec i 0); [done|].
      apply lookup_ge_None.
      apply (clear_callbacks_short _ _ _ f Hi Hf).
      intros j g Hj Hg. apply (Hafter (Z.of_nat j)); [lia|].
      apply array_get_Some. split; [lia|]. by rewrite Nat2Z.id. }
    split; [done|].
    unfold deserializeFunction, function_envelope. simpl. by rewrite Hnone.
Qed.

Lemma clearTestState_registry_witness :
  registeredCallbacks
    (state_of (clearTestState sample_runtime [result_reply None]
                 (set_registeredCallbacks [2%nat; 5%nat; 6%nat] session_state)))
  = [2%nat]
  /\ deserializeFunction
       (registeredCallbacks
          (state_of (clearTestState sample_runtime [result_reply None]
                       (set_registeredCallbacks [2%nat; 5%nat; 6%nat]
                          session_state))))
       (function_envelope 1)
     = VUndefined.
Proof.
  destruct (clearTestState_registry sample_runtime [result_reply None] []
              (set_registeredCallbacks [2%nat; 5%nat; 6%nat] session_state)
              (state_of (clearTestState sample_runtime [result_reply None]
                           (set_registeredCallbacks [2%nat; 5%nat; 6%nat]
                              session_state)))
              None eq_refl)
    as (st1 & r1 & Hsend & Hreg & _ & Hgone).
  vm_compute in Hsend. injection Hsend as <- <-.
  split; [exact Hreg|].
  apply (Hgone 1 5%nat); [reflexivity|by vm_compute|].
  intros j g Hj Hg.
  assert (Hcases : j = 2 \/ j < 0 \/ 2 < j) by lia.
  destruct Hcases as [->|[Hneg|Hbig]].
  - vm_compute in Hg. injection Hg as <-. by vm_compute.
  - unfold array_get in Hg. destruct (Z.ltb_spec j 0); [discriminate|lia].
  - unfold array_get in Hg. destruct (Z.ltb_spec j 0); [discriminate|].
    apply lookup_lt_Some in Hg. simpl in Hg. lia.
Defined.

(** The claim C3 as stated fails: the listener 1 was serialized before the
    session was created, so that the persistent function 2 sits behind it;
    handle 0 referred to the listener, which the reset removes, and yet
    handle 0 resolves afterwards, to the function 2. *)
Lemma clearTestState_handle_reused :
  array_get (registeredCallbacks late_session_state) 0 = Some 1%nat
  /\ bool_decide (1%nat ∈ persistentCallback late_session_state) = false
  /\ registeredCallbacks
       (state_of (clearTestState sample_runtime [result_reply None]
                    late_session_state))
     = [2%nat]
  /\ deserializeFunction
       (registeredCallbacks
          (state_of (clearTestState sample_runtime [result_reply None]
                       late_session_state)))
       (function_envelope 0)
     = VFunction 2%nat
  /\ VFunction 2%nat <> VUndefined.
Proof. repeat split; [vm_compute; reflexivity..|discriminate]. Qed.

(** * Properties of the dispatcher *)

Lemma sendRequest_answered (rt : Runtime) (reply : http_reply)
    (rest : list http_reply) (command : string) (data : payload)
    (host : option string) (st : rpc_state) (h : string) :
  resolve_host host (clearTimeout st) = Some h ->
  sendRequest rt (reply :: rest) command data host st
  = finally_arm_poll
      (after_reply rt (fun c d s => sendRequest rt rest c d None s) reply rest
         command (with_session data (clearTimeout st))
         (request_state command data h st)).
Proof. intros Hh. simpl. rewrite Hh. reflexivity. Qed.

Lemma sendRequest_no_host (rt : Runtime) (replies : list http_reply)
    (command : string) (data : payload) (host : option string) (st : rpc_state) :
  resolve_host host (clearTimeout st) = None ->
  sendRequest rt replies command data host st
  = Done (Raise (ErrorObject (new_Error
            (Some "Must first create RPC session with a valid host"))))
      (arm_poll (clearTimeout st)) replies.
Proof. intros Hh. destruct replies; simpl; rewrite Hh; reflexivity. Qed.

Lemma sendRequest_unanswered (rt : Runtime) (command : string) (data : payload)
    (host : option string) (st : rpc_state) (h : string) :
  resolve_host host (clearTimeout st) = Some h ->
  sendRequest rt [] command data host st
  = Waiting (request_state command data h st).
Proof. intros Hh. simpl. rewrite Hh. reflexivity. Qed.

(** ** The poll interval *)

Lemma backoff_ok (callback : option Z) (command : string) (t : Z) :
  poll_ok t -> poll_ok (backoff callback command t).
Proof.
  unfold poll_ok, backoff. intros Ht.
  destruct (truthy_callback callback || negb (String.eqb command "callbacks_poll"));
    [simpl; tauto|].
  simpl in Ht.
  repeat (destruct Ht as [<-|Ht]; [vm_compute; tauto|]).
  destruct Ht.
Qed.

Lemma poll_ok_bounds (t : Z) : poll_ok t -> 10 <= t <= 1280.
Proof.
  unfold poll_ok. simpl. intros Ht.
  repeat (destruct Ht as [<-|Ht]; [lia|]). destruct Ht.
Qed.

Lemma sendRequest_cycle (rt : Runtime) (reply : http_reply)
    (rest : list http_reply) (command : string) (data : payload)
    (host : option string) (st : rpc_state) (h : string) (response : body) :
  resolve_host host (clearTimeout st) = Some h ->
  makeRequest reply = Ok response ->
  sendRequest rt (reply :: rest) command data host st
  = finally_arm_poll
      (handle_response rt (fun c d s => sendRequest rt rest c d None s) rest
         command (with_session data (clearTimeout st)) response
         (set_pollTimeout
            (backoff (response_callback response) command (pollTimeout st))
            (request_state command data h st))).
Proof.
  intros Hh Hreply. rewrite (sendRequest_answered _ _ _ _ _ _ _ h Hh).
  unfold after_reply. by rewrite Hreply.
Qed.

(** A property of the state that every step of a cycle keeps is kept by
    [sendRequest]. *)
Section Preservation.
Variable rt : Runtime.
Variable Q : rpc_state -> Prop.
Hypothesis Q_post : forall url data st, Q st -> Q (post url data st).
Hypothesis Q_clearTimeout : forall st, Q st -> Q (clearTimeout st).
Hypothesis Q_arm_poll : forall st, Q st -> Q (arm_poll st).
Hypothesis Q_backoff :
  forall callback command st,
    Q st -> Q (set_pollTimeout (backoff callback command (pollTimeout st)) st).
Hypothesis Q_registry :
  forall reg st, Q st -> Q (set_registeredCallbacks reg st).

Lemma finally_arm_poll_preserves (o : outcome) :
  Q (state_of o) -> Q (state_of (finally_arm_poll o)).
Proof. destruct o; simpl; auto. Qed.

Lemma handle_response_preserves
    (self : string -> payload -> rpc_state -> outcome)
    (rest : list http_reply) (command : string) (data : payload)
    (response : body) (st : rpc_state) :
  (forall c d s, Q s -> Q (state_of (self c d s))) ->
  Q st ->
  Q (state_of (handle_response rt self rest command data response st)).
Proof.
  intros Hself HQ. unfold handle_response.
  destruct (error_outcome response); [done|].
  destruct response as [p|r]; [done|].
  destruct (response_callback (BObject r)) as [callback|]; [|done].
  destruct (run_callback rt _ _ r callback) as [[report|e] reg]; simpl.
  - by apply Hself, Q_registry.
  - by apply Q_registry.
Qed.

Lemma after_reply_preserves
    (self : string -> payload -> rpc_state -> outcome)
    (reply : http_reply) (rest : list http_reply) (command : string)
    (data : payload) (st : rpc_state) :
  (forall c d s, Q s -> Q (state_of (self c d s))) ->
  Q st ->
  Q (state_of (after_reply rt self reply rest command data st)).
Proof.
  intros Hself HQ. unfold after_reply.
  destruct (makeRequest reply) as [response|e]; [|done].
  by apply handle_response_preserves, Q_backoff.
Qed.

Lemma sendRequest_preserves (replies : list http_reply) :
  forall command data host st,
    Q st -> Q (state_of (sendRequest rt replies command data host st)).
Proof.
  induction replies as [|reply rest IH]; intros command data host st HQ;
    destruct (resolve_host host (clearTimeout st)) as [h|] eqn:Hh;
    try (rewrite sendRequest_no_host by done; simpl;
         by apply Q_arm_poll, Q_clearTimeout).
  - rewrite (sendRequest_unanswered _ _ _ _ _ h Hh). simpl.
    by apply Q_post, Q_clearTimeout.
  - rewrite (sendRequest_answered _ _ _ _ _ _ _ h Hh).
    apply finally_arm_poll_preserves, after_reply_preserves.
    + intros c d s. apply IH.
    + by apply Q_post, Q_clearTimeout.
Qed.
End Preservation.

Lemma sendRequest_pollTimeout (rt : Runtime) (replies : list http_reply)
    (command : string) (data : payload) (host : option string)
    (st : rpc_state) :
  poll_ok (pollTimeout st) ->
  poll_ok (pollTimeout (state_of (sendRequest rt replies command data host st))).
Proof.
  apply (sendRequest_preserves rt (fun st => poll_ok (pollTimeout st)));
    intros; simpl; auto using backoff_ok.
Qed.

Lemma createSession_pollTimeout (rt : Runtime) (replies : list http_reply)
    (f : fn) (host : option string) (st : rpc_state) :
  poll_ok (pollTimeout st) ->
  poll_ok (pollTimeout (state_of (createSession rt replies f host st))).
Proof.
  intros Hok. unfold createSession.
  destruct (serialize rt _ None (VFunction f)) as [e reg].
  match goal with
  | |- context [sendRequest rt replies ?cmd ?d host ?s] =>
      pose proof (sendRequest_pollTimeout rt replies cmd d host s Hok) as Hsend;
      destruct (sendRequest rt replies cmd d host s) as [[id|e'] st1 rest|st1]
  end; exact Hsend.
Qed.

Lemma clearTestState_pollTimeout (rt : Runtime) (replies : list http_reply)
    (st : rpc_state) :
  poll_ok (pollTimeout st) ->
  poll_ok (pollTimeout (state_of (clearTestState rt replies st))).
Proof.
  intros Hok. unfold clearTestState.
  pose proof (sendRequest_pollTimeout rt replies "clear_test_state" [] None st
                Hok) as Hsend.
  destruct (sendRequest rt replies "clear_test_state" [] None st)
    as [[id|e'] st1 rest|st1]; exact Hsend.
Qed.

Lemma run_calls_pollTimeout (rt : Runtime) (calls : list api_call) :
  forall replies st,
    poll_ok (pollTimeout st) ->
    poll_ok (pollTimeout (run_calls rt calls replies st)).
Proof.
  induction calls as [|c calls IH]; intros replies st Hok; simpl; [done|].
  assert (Hstep : poll_ok (pollTimeout (state_of (run_call rt replies c st)))).
  { destruct c as [command data host|f host|]; simpl.
    - by apply sendRequest_pollTimeout.
    - by apply createSession_pollTimeout.
    - by apply clearTestState_pollTimeout. }
  destruct (run_call rt replies c st) as [r st' rest|st']; simpl in Hstep.
  - by apply IH.
  - done.
Qed.

Lemma idle_cycle (rt : Runtime) (reply : http_reply) (rest : list http_reply)
    (command : string) (data : payload) (host : option string)
    (st : rpc_state) (h : string) :
  resolve_host host (clearTimeout st) = Some h ->
  found_nothing reply = true ->
  exists r st',
    sendRequest rt (reply :: rest) command data host st = Done r st' rest
    /\ pollTimeout st' = backoff None command (pollTimeout st)
    /\ sessionHost st' = sessionHost st.
Proof.
  intros Hh Hidle. rewrite (sendRequest_answered _ _ _ _ _ _ _ h Hh).
  unfold found_nothing in Hidle. unfold after_reply, handle_response.
  destruct (makeRequest reply) as [response|]; [|discriminate].
  destruct (response_callback response) eqn:Hcb; [discriminate|].
  destruct (error_outcome response); simpl.
  - eexists _, _. split; [reflexivity|]. by split.
  - destruct response as [p|r]; simpl in *.
    + eexists _, _. split; [reflexivity|]. by split.
    + rewrite Hcb. eexists _, _. split; [reflexivity|]. by split.
Qed.

Lemma backoff_idle (k : Z) :
  0 <= k <= 7 ->
  backoff None "callbacks_poll" (10 * 2 ^ k) = 10 * 2 ^ Z.min (k + 1) 7.
Proof.
  intros Hk. assert (Hcases : k = 0 \/ k = 1 \/ k = 2 \/ k = 3 \/ k = 4
                              \/ k = 5 \/ k = 6 \/ k = 7) by lia.
  repeat (destruct Hcases as [->|Hcases]; [reflexivity|]). by subst.
Qed.

Lemma idle_polls_backoff (rt : Runtime) (replies : list http_reply) :
  forall st k,
    truthy_string (sessionHost st) = true ->
    0 <= k <= 7 ->
    pollTimeout st = 10 * 2 ^ k ->
    forallb found_nothing replies = true ->
    pollTimeout (run_calls rt (map (fun _ => poll) replies) replies st)
    = 10 * 2 ^ Z.min (k + Z.of_nat (length replies)) 7.
Proof.
  induction replies as [|reply rest IH]; intros st k Hhost Hk Hst Hidle.
  - simpl. rewrite Z.add_0_r, Z.min_l by lia. done.
  - simpl in Hidle. apply andb_prop in Hidle as [Hreply Hrest].
    assert (Hh : resolve_host None (clearTimeout st) = sessionHost st).
    { unfold resolve_host. simpl. by rewrite Hhost. }
    destruct (sessionHost st) as [h|] eqn:Hsh; [|discriminate].
    destruct (idle_cycle rt reply rest "callbacks_poll" [] None st h Hh Hreply)
      as (r & st' & Hsend & Hpoll & Hhost').
    cbn [map run_calls run_call poll]. rewrite Hsend.
    rewrite Hst, backoff_idle in Hpoll by done.
    rewrite (IH st' (Z.min (k + 1) 7)); [|by rewrite Hhost', Hsh|lia|done|done].
    f_equal. f_equal. cbn [length]. lia.
Qed.

(** C2, as amended.  [pollTimeout] always stays within [10, 1280]
    milliseconds, across every sequence of dispatch cycles: it starts at 10
    and is one of 10, 20, 40, ..., 640, 1280 ever after.  Starting at 10,
    every repeated idle poll doubles it as long as it is below 1000, so
    that after [n] idle polls it is 10 * 2 ^ min(n, 7). *)
Theorem pollTimeout_range (rt : Runtime) :
  (forall calls replies,
     10 <= pollTimeout (run_calls rt calls replies initial_state) <= 1280
     /\ poll_ok (pollTimeout (run_calls rt calls replies initial_state)))
  /\ (forall st replies,
        truthy_string (sessionHost st) = true ->
        pollTimeout st = 10 ->
        forallb found_nothing replies = true ->
        pollTimeout (run_calls rt (map (fun _ => poll) replies) replies st)
        = 10 * 2 ^ Z.min (Z.of_nat (length replies)) 7).
Proof.
  split.
  - intros calls replies.
    assert (Hok : poll_ok (pollTimeout (run_calls rt calls replies initial_state))).
    { apply run_calls_pollTimeout. left. reflexivity. }
    split; [by apply poll_ok_bounds|exact Hok].
  - intros st replies Hhost Hst Hidle.
    by rewrite (idle_polls_backoff rt replies st 0 Hhost).
Qed.

Lemma pollTimeout_range_witness :
  pollTimeout
    (run_calls sample_runtime (map (fun _ => poll) (repeat (result_reply None) 3))
       (repeat (result_reply None) 3) session_state)
  = 80.
Proof.
  exact (proj2 (pollTimeout_range sample_runtime) session_state
           (repeat (result_reply None) 3) eq_refl eq_refl eq_refl).
Defined.

(** The claim C2 as stated fails: after the session is created, seven idle
    polls in a row take [pollTimeout] from 10 to 1280, which exceeds
    1000. *)
Lemma pollTimeout_exceeds_1000 :
  pollTimeout
    (run_calls sample_runtime
       (call_createSession 2%nat (Some "localhost") :: repeat poll 7)
       (result_reply (Some (JPrim (PNum 1))) :: repeat (result_reply None) 7)
       initial_state)
  = 1280
  /\ 1000 < 1280.
Proof. split; [vm_compute; reflexivity|lia]. Qed.

(** ** The update of the poll interval *)

Lemma backoff_reset (callback : option Z) (command : string) (t : Z) :
  (exists n, callback = Some n /\ n <> 0) \/ command <> "callbacks_poll" ->
  backoff callback command t = 10.
Proof.
  unfold backoff. intros [(n & -> & Hn)|Hcmd].
  - simpl. by destruct (Z.eqb_spec n 0).
  - destruct (String.eqb_spec command "callbacks_poll"); [done|].
    by rewrite orb_true_r.
Qed.

Lemma backoff_idle_poll (t : Z) :
  backoff None "callbacks_poll" t = if t <? 1000 then t * 2 else t.
Proof. reflexivity. Qed.

(** C4, as amended.  On every completed dispatch cycle (the transport has
    answered with a response), the cycle ends in, or hands over to the
    follow-up request from, a state in which: [pollTimeout] is 10 if the
    response carried a callback request with a non-zero handle or the
    command was anything other than [callbacks_poll]; and, for an idle poll
    (the poll command, no callback requested), [pollTimeout] is doubled when
    it was below 1000 and left as it was otherwise. *)
Theorem pollTimeout_update (rt : Runtime) (reply : http_reply)
    (rest : list http_reply) (command : string) (data : payload)
    (host : option string) (st : rpc_state) (h : string) (response : body) :
  resolve_host host (clearTimeout st) = Some h ->
  makeRequest reply = Ok response ->
  exists st',
    ((exists r,
        sendRequest rt (reply :: rest) command data host st
        = Done r (arm_poll st') rest)
     \/ (exists command' data',
           sendRequest rt (reply :: rest) command data host st
           = finally_arm_poll (sendRequest rt rest command' data' None st')))
    /\ ((exists n, response_callback response = Some n /\ n <> 0)
        \/ command <> "callbacks_poll" ->
        pollTimeout st' = 10)
    /\ (command = "callbacks_poll" ->
        response_callback response = None ->
        pollTimeout st'
        = if pollTimeout st <? 1000 then pollTimeout st * 2 else pollTimeout st).
Proof.
  intros Hh Hreply.
  rewrite (sendRequest_cycle rt reply rest command data host st h response Hh
             Hreply).
  set (t := backoff (response_callback response) command (pollTimeout st)).
  set (st2 := set_pollTimeout t (request_state command data h st)).
  assert (Hreset : (exists n, response_callback response = Some n /\ n <> 0)
                   \/ command <> "callbacks_poll" -> t = 10)
    by apply backoff_reset.
  assert (Hidle : command = "callbacks_poll" ->
                  response_callback response = None ->
                  t = if pollTimeout st <? 1000 then pollTimeout st * 2
                      else pollTimeout st).
  { intros -> Hnone. unfold t. rewrite Hnone. apply backoff_idle_poll. }
  unfold handle_response.
  destruct (error_outcome response).
  { exists st2. split; [left; eexists; reflexivity|]. by split. }
  destruct response as [p|r].
  { exists st2. split; [left; eexists; reflexivity|]. by split. }
  destruct (response_callback (BObject r)) as [callback|].
  2:{ exists st2. split; [left; eexists; reflexivity|]. by split. }
  destruct (run_callback rt (registeredCallbacks st2) _ r callback)
    as [[report|e] reg].
  - exists (set_registeredCallbacks reg st2).
    split; [right; eexists _, _; reflexivity|]. by split.
  - exists (set_registeredCallbacks reg st2).
    split; [left; eexists; reflexivity|]. by split.
Qed.

Lemma pollTimeout_update_witness :
  exists st',
    ((exists r,
        sendRequest sample_runtime [result_reply None] "callbacks_poll" [] None
          session_state
        = Done r (arm_poll st') [])
     \/ (exists command' data',
           sendRequest sample_runtime [result_reply None] "callbacks_poll" []
             None session_state
           = finally_arm_poll
               (sendRequest sample_runtime [] command' data' None st')))
    /\ pollTimeout st' = 20.
Proof.
  destruct (pollTimeout_update sample_runtime (result_reply None) []
              "callbacks_poll" [] None session_state "localhost"
              (BObject empty_response) eq_refl eq_refl)
    as (st' & Hend & _ & Hidle).
  exists st'. split; [exact Hend|]. exact (Hidle eq_refl eq_refl).
Defined.

(** The claim C4 as stated fails: an idle poll made when [pollTimeout] is
    1280 (after seven idle polls) leaves it at 1280; it is not doubled. *)
Lemma idle_poll_not_doubled :
  pollTimeout
    (run_calls sample_runtime (repeat poll 7) (repeat (result_reply None) 7)
       session_state)
  = 1280
  /\ pollTimeout
       (run_calls sample_runtime (repeat poll 8) (repeat (result_reply None) 8)
          session_state)
     = 1280
  /\ 1280 <> 2 * 1280.
Proof. repeat split; [vm_compute; reflexivity..|lia]. Qed.

(** X17.  A poll answered with a request for the callback of handle 0.
    The reset of the poll interval tests the handle of the callback for
    truthiness, the callback block tests it against [null]: such a poll
    runs the callback block and yet doubles [pollTimeout] (when it is below
    1000) before the follow-up request is made, or before the exception of
    the callback block leaves the call. *)
Lemma poll_callback_zero_doubles (rt : Runtime) (reply : http_reply)
    (rest : list http_reply) (data : payload) (host : option string)
    (st : rpc_state) (h : string) (r : response) :
  resolve_host host (clearTimeout st) = Some h ->
  makeRequest reply = Ok (BObject r) ->
  truthy_error (resp_error r) = false ->
  resp_callback r = Some 0 ->
  pollTimeout st < 1000 ->
  exists o st',
    sendRequest rt (reply :: rest) "callbacks_poll" data host st
    = finally_arm_poll o
    /\ pollTimeout st' = pollTimeout st * 2
    /\ (o = Done (Raise TypeError) st' rest
        \/ exists followup,
             o = sendRequest rt rest "callback_poll_result" followup None st').
Proof.
  intros Hh Hreply Herr Hcb Hlt.
  rewrite (sendRequest_cycle rt reply rest "callbacks_poll" data host st h
             (BObject r) Hh Hreply).
  unfold handle_response. cbn [error_outcome response_callback].
  rewrite Herr, Hcb.
  destruct (run_callback rt _ _ r 0) as [[report|e] reg] eqn:Hrun.
  - eexists _, _. split; [reflexivity|]. split; [|right; eexists; reflexivity].
    simpl. unfold backoff. simpl. by destruct (Z.ltb_spec (pollTimeout st) 1000); [|lia].
  - assert (e = TypeError) as ->.
    { unfold run_callback, catch_callback in Hrun.
      repeat match type of Hrun with
             | context [match ?x with _ => _ end] => destruct x
             | context [if ?x then _ else _] => destruct x
             end; congruence. }
    eexists _, _. split; [reflexivity|]. split; [|left; reflexivity].
    simpl. unfold backoff. simpl. by destruct (Z.ltb_spec (pollTimeout st) 1000); [|lia].
Qed.

(** ** What a call posts *)

Lemma sendRequest_posts_first (rt : Runtime) (replies : list http_reply)
    (command : string) (data : payload) (host : option string)
    (st : rpc_state) (h : string) :
  resolve_host host (clearTimeout st) = Some h ->
  exists more,
    posted (state_of (sendRequest rt replies command data host st))
    = (posted st ++ (request_url h command, with_session data st) :: more)%list.
Proof.
  intros Hh.
  set (Q := fun s : rpc_state =>
              exists more,
                posted s
                = (posted st ++ (request_url h command, with_session data st)
                     :: more)%list).
  assert (Q_post : forall url d s, Q s -> Q (post url d s)).
  { intros url d s [more Hs]. exists (more ++ [(url, d)])%list. simpl.
    rewrite Hs. by rewrite <- app_assoc. }
  assert (Hstart : Q (request_state command data h st)).
  { exists []. reflexivity. }
  destruct replies as [|reply rest].
  - by rewrite (sendRequest_unanswered _ _ _ _ _ h Hh).
  - rewrite (sendRequest_answered _ _ _ _ _ _ _ h Hh).
    apply (finally_arm_poll_preserves Q); [done|].
    apply (after_reply_preserves rt Q); try done.
    intros c d s. by apply (sendRequest_preserves rt Q).
Qed.

(** ** Error outcome *)

Lemma sendRequest_error_outcome (rt : Runtime) (reply : http_reply)
    (rest : list http_reply) (command : string) (data : payload)
    (host : option string) (st : rpc_state) (h : string) (response : body) :
  resolve_host host (clearTimeout st) = Some h ->
  makeRequest reply = Ok response ->
  error_outcome response = true ->
  exists st',
    sendRequest rt (reply :: rest) command data host st
    = Done (Raise (response_exception command response)) st' rest
    /\ posted st'
       = (posted st ++ [(request_url h command, with_session data st)])%list.
Proof.
  intros Hh Hreply Herr.
  rewrite (sendRequest_cycle rt reply rest command data host st h response Hh
             Hreply).
  unfold handle_response. rewrite Herr. eexists. split; reflexivity.
Qed.

Lemma sibling_message_spec (r : response) :
  (if truthy_string (response_message (BObject r))
   then option_map strip_type_prefix (response_message (BObject r))
   else None)
  = sibling_message r.
Proof.
  unfold sibling_message. simpl.
  destruct (resp_message r) as [m|]; [|reflexivity]. simpl.
  by destruct (String.eqb m EmptyString).
Qed.

(** C6, as amended.  When the response carries an error: a plain string
    error has one leading word followed by a colon and a space removed,
    whatever the case of its letters, and is raised with the message that
    remains, or with the generic message that names the command when
    nothing remains; a structured dict error is raised as an error whose
    message comes from the sibling [message] member, by the same rule, and
    onto which the fields of the dict are copied (a field of the dict named
    message is copied like the others). *)
Theorem error_response_raised (rt : Runtime) (reply : http_reply)
    (rest : list http_reply) (command : string) (data : payload)
    (host : option string) (st : rpc_state) (h : string) (r : response) :
  resolve_host host (clearTimeout st) = Some h ->
  makeRequest reply = Ok (BObject r) ->
  (forall s,
     resp_error r = Some (ErrPrim (PStr s)) ->
     s <> EmptyString ->
     exists st',
       sendRequest rt (reply :: rest) command data host st
       = Done (Raise (ErrorObject
                        [("message",
                          EPrim (PStr (if String.eqb (strip_type_prefix s)
                                            EmptyString
                                       then invalid_response command
                                       else strip_type_prefix s)))]))
           st' rest)
  /\ (forall error fields,
        resp_error r = Some (ErrEnvelope error) ->
        env_type error = Some "dict" ->
        deserialize_json_value error = Ok fields ->
        exists st' props,
          sendRequest rt (reply :: rest) command data host st
          = Done (Raise (ErrorObject props)) st' rest
          /\ props = Object_assign (new_Error (sibling_message r)) fields
          /\ (forall k v, (k, v) ∈ fields -> obj_get k props = Some v)
          /\ ("message" ∉ map fst fields ->
              obj_get "message" props
              = option_map (fun m => EPrim (PStr m)) (sibling_message r)))
  /\ (forall word message,
        word <> EmptyString -> letters word = true ->
        strip_type_prefix (word +:+ ": " +:+ message) = message).
Proof.
  intros Hh Hreply. split; [|split].
  - intros s Hs Hne.
    destruct (sendRequest_error_outcome rt reply rest command data host st h
                (BObject r) Hh Hreply) as (st' & Hsend & _).
    { simpl. rewrite Hs. simpl. by destruct (String.eqb_spec s EmptyString). }
    exists st'. rewrite Hsend. unfold response_exception. simpl. rewrite Hs.
    simpl.
    destruct (String.eqb_spec s EmptyString); [done|]. simpl.
    by destruct (String.eqb_spec (strip_type_prefix s) EmptyString).
  - intros error fields Herror Hdict Hfields.
    destruct (sendRequest_error_outcome rt reply rest command data host st h
                (BObject r) Hh Hreply) as (st' & Hsend & _).
    { simpl. by rewrite Herror. }
    exists st', (Object_assign (new_Error (sibling_message r)) fields).
    split; [|split; [reflexivity|split]].
    + rewrite Hsend. unfold response_exception.
      cbn [response_error]. rewrite Herror. unfold is_dict. rewrite Hdict.
      rewrite String.eqb_refl, Hfields. by rewrite sibling_message_spec.
    + intros k v Hin. apply Object_assign_copied; [|done].
      by eapply deserialize_json_value_NoDup.
    + intros Hmsg. rewrite Object_assign_other by done.
      destruct (sibling_message r) as [m|]; reflexivity.
  - apply strip_type_prefix_word.
Qed.

Lemma error_response_raised_witness :
  (exists st',
     sendRequest sample_runtime
       [error_reply (ErrPrim (PStr "Error: boom")) None] "get_property" [] None
       session_state
     = Done (Raise (ErrorObject [("message", EPrim (PStr "boom"))])) st' [])
  /\ (exists st' props,
        sendRequest sample_runtime
          [error_reply (ErrEnvelope sample_dict_error) (Some "Error: boom")]
          "get_property" [] None session_state
        = Done (Raise (ErrorObject props)) st' []
        /\ props
           = [("message", EPrim (PStr "boom"));
              ("code", EPrim (PNum 7));
              ("detail", EObject [("path", EPrim (PStr "default.realm"))])]).
Proof.
  split.
  - apply (proj1 (error_response_raised sample_runtime
                    (error_reply (ErrPrim (PStr "Error: boom")) None) []
                    "get_property" [] None session_state "localhost" _
                    eq_refl eq_refl) "Error: boom" eq_refl).
    discriminate.
  - destruct (proj1 (proj2 (error_response_raised sample_runtime
                    (error_reply (ErrEnvelope sample_dict_error)
                       (Some "Error: boom")) []
                    "get_property" [] None session_state "localhost" _
                    eq_refl eq_refl))
                sample_dict_error _ eq_refl eq_refl eq_refl)
      as (st' & props & Hsend & Hprops & _).
    exists st', props. split; [exact Hsend|exact Hprops].
Defined.

(** The claim C6 as stated fails: of the string error made of a type prefix
    alone nothing remains once the prefix is removed, and the error raised
    does not carry that empty message but the generic one. *)
Lemma empty_error_message_replaced :
  strip_type_prefix "Error: " = EmptyString
  /\ (exists st',
        sendRequest sample_runtime [error_reply (ErrPrim (PStr "Error: ")) None]
          "get_property" [] None session_state
        = Done (Raise (ErrorObject
                         [("message",
                           EPrim (PStr (invalid_response "get_property")))]))
            st' [])
  /\ invalid_response "get_property" <> EmptyString.
Proof.
  split; [reflexivity|]. split; [|discriminate].
  eexists. vm_compute. reflexivity.
Qed.

(** ** Missing response *)

(** C7 fails on the code for a missing response.  When the transport
    answers with the body [null], the block that raises errors reads
    [error.type] on [null]: the call raises the TypeError of the engine, not
    the generic error that names the command, and posts nothing more. *)
Theorem null_response_raises_TypeError (rt : Runtime) (reply : http_reply)
    (rest : list http_reply) (command : string) (data : payload)
    (host : option string) (st : rpc_state) (h : string) :
  resolve_host host (clearTimeout st) = Some h ->
  makeRequest reply = Ok (BPrim PNull) ->
  exists st',
    sendRequest rt (reply :: rest) command data host st
    = Done (Raise TypeError) st' rest
    /\ TypeError <> ErrorObject (new_Error (Some (invalid_response command))).
Proof.
  intros Hh Hreply.
  destruct (sendRequest_error_outcome rt reply rest command data host st h
              (BPrim PNull) Hh Hreply eq_refl) as (st' & Hsend & _).
  exists st'. split; [exact Hsend|discriminate].
Qed.

Lemma null_response_raises_TypeError_witness :
  exists st',
    sendRequest sample_runtime [reply_with (BPrim PNull)] "get_property" [] None
      session_state
    = Done (Raise TypeError) st' []
    /\ TypeError
       <> ErrorObject (new_Error (Some (invalid_response "get_property"))).
Proof.
  exact (null_response_raises_TypeError sample_runtime
           (reply_with (BPrim PNull)) [] "get_property" [] None session_state
           "localhost" eq_refl eq_refl).
Defined.

(** X16.  A response that is unusable without being [null].  For a body
    that is falsy and not [null] ([false], [0], the empty string), and
    for an error string of which nothing remains once its type prefix is
    removed, the error thrown is the generic one that names the command. *)
Lemma unusable_response_raises_generic (rt : Runtime) (reply : http_reply)
    (rest : list http_reply) (command : string) (data : payload)
    (host : option string) (st : rpc_state) (h : string) (response : body) :
  resolve_host host (clearTimeout st) = Some h ->
  makeRequest reply = Ok response ->
  (exists p, response = BPrim p /\ truthy_prim p = false /\ p <> PNull)
  \/ (exists r s,
        response = BObject r /\ resp_error r = Some (ErrPrim (PStr s))
        /\ s <> EmptyString /\ strip_type_prefix s = EmptyString) ->
  exists st',
    sendRequest rt (reply :: rest) command data host st
    = Done (Raise (ErrorObject
                     [("message", EPrim (PStr (invalid_response command)))]))
        st' rest.
Proof.
  intros Hh Hreply Hcase.
  destruct (sendRequest_error_outcome rt reply rest command data host st h
              response Hh Hreply) as (st' & Hsend & _).
  { destruct Hcase as [(p & -> & Hp & _)|(r & s & -> & Hs & Hne & _)]; simpl.
    - by rewrite Hp.
    - rewrite Hs. simpl. by destruct (String.eqb_spec s EmptyString). }
  exists st'. rewrite Hsend. unfold response_exception.
  destruct Hcase as [(p & -> & Hp & Hnull)|(r & s & -> & Hs & Hne & Hstrip)].
  - cbn [response_error]. rewrite Hp. destruct p; try done; simpl in *.
    + by rewrite Hp.
    + by rewrite Hp.
    + by rewrite Hp.
  - cbn [response_error]. rewrite Hs, Hstrip. simpl.
    by destruct (String.eqb_spec s EmptyString).
Qed.

(** ** Callback-request outcome *)

Lemma callbackCommand_spec (command : string) :
  callbackCommand command = followup_command command.
Proof.
  unfold callbackCommand, followup_command.
  destruct (String.eqb_spec command "callbacks_poll") as [->|Hpoll];
    [by rewrite bool_decide_eq_true_2 by (by left)|].
  destruct (String.eqb_spec command "callback_poll_result") as [->|Hresult];
    [by rewrite bool_decide_eq_true_2 by (by right)|].
  rewrite bool_decide_eq_false_2; [done|]. intros [?|?]; done.
Qed.

Lemma sendRequest_callback_outcome (rt : Runtime) (reply : http_reply)
    (rest : list http_reply) (command : string) (data : payload)
    (host : option string) (st : rpc_state) (h : string) (r : response)
    (callback : Z) :
  resolve_host host (clearTimeout st) = Some h ->
  makeRequest reply = Ok (BObject r) ->
  truthy_error (resp_error r) = false ->
  resp_callback r = Some callback ->
  sendRequest rt (reply :: rest) command data host st
  = finally_arm_poll
      (match run_callback rt (registeredCallbacks st)
               (data_realmId (with_session data st)) r callback with
       | (Ok report, reg) =>
           sendRequest rt rest (followup_command command)
             (callback_payload callback report (resp_callback_call_counter r))
             None (callback_state command data h callback reg st)
       | (Raise e, reg) =>
           Done (Raise e) (callback_state command data h callback reg st) rest
       end).
Proof.
  intros Hh Hreply Herr Hcb.
  rewrite (sendRequest_cycle rt reply rest command data host st h (BObject r)
             Hh Hreply).
  unfold handle_response. cbn [error_outcome response_callback].
  rewrite Herr, Hcb. rewrite callbackCommand_spec. f_equal.
Qed.

(** C9.  For every callback-request outcome that is followed up, the
    command of the follow-up request is [callback_poll_result] exactly when
    the triggering command was [callbacks_poll] or [callback_poll_result],
    and [callback_result] otherwise; its payload carries the callback
    handle, the outcome (result, error and stack) and the
    [callback_call_counter] of the response.  The follow-up is the next
    request posted once a host is known for it. *)
Theorem callback_followup (rt : Runtime) (reply : http_reply)
    (rest : list http_reply) (command : string) (data : payload)
    (host : option string) (st : rpc_state) (h : string) (r : response)
    (callback : Z) (report : callback_report) (reg : list fn) :
  resolve_host host (clearTimeout st) = Some h ->
  makeRequest reply = Ok (BObject r) ->
  truthy_error (resp_error r) = false ->
  resp_callback r = Some callback ->
  run_callback rt (registeredCallbacks st) (data_realmId (with_session data st))
    r callback = (Ok report, reg) ->
  exists st' followup,
    sendRequest rt (reply :: rest) command data host st
    = finally_arm_poll
        (sendRequest rt rest
           (if bool_decide (command = "callbacks_poll"
                            \/ command = "callback_poll_result")
            then "callback_poll_result" else "callback_result")
           followup None st')
    /\ obj_get "callback" followup = Some (FValue (VPrim (PNum callback)))
    /\ obj_get "result" followup
       = Some (match report_result report with
               | Some e => FJson (JEnvelope e)
               | None => FValue VUndefined
               end)
    /\ obj_get "error" followup = Some (FValue (report_error report))
    /\ obj_get "stack" followup
       = Some (match report_stack report with
               | Some stack => FStringify stack
               | None => FValue VUndefined
               end)
    /\ obj_get "callback_call_counter" followup
       = Some (match resp_callback_call_counter r with
               | Some n => FValue (VPrim (PNum n))
               | None => FValue VUndefined
               end)
    /\ (forall h',
          resolve_host None (clearTimeout st') = Some h' ->
          exists more,
            posted (state_of (sendRequest rt (reply :: rest) command data host st))
            = (posted st
               ++ (request_url h command, with_session data st)
               :: (request_url h' (followup_command command),
                   with_session followup st')
               :: more)%list).
Proof.
  intros Hh Hreply Herr Hcb Hrun.
  pose proof (sendRequest_callback_outcome rt reply rest command data host st
                h r callback Hh Hreply Herr Hcb) as Hsend.
  rewrite Hrun in Hsend.
  exists (callback_state command data h callback reg st),
    (callback_payload callback report (resp_callback_call_counter r)).
  split; [exact Hsend|].
  do 5 (split; [reflexivity|]).
  intros h' Hh'. rewrite Hsend.
  destruct (sendRequest_posts_first rt rest (followup_command command)
              (callback_payload callback report (resp_callback_call_counter r))
              None (callback_state command data h callback reg st) h' Hh')
    as [more Hmore].
  exists more.
  destruct (sendRequest rt rest _ _ None _) as [res st2 rest2|st2];
    simpl in Hmore |- *; rewrite Hmore; simpl; by rewrite <- app_assoc.
Qed.

Lemma callback_followup_witness :
  exists st' followup,
    sendRequest sample_runtime
      [callback_reply 0 (Envelope None (Some (WPrim (PNum 42))) None None None)
         (Envelope None (Some (WArray [])) None None None) 3;
       result_reply (Some (JPrim (PStr "done")))]
      "callbacks_poll" [] None session_state
    = finally_arm_poll
        (sendRequest sample_runtime [result_reply (Some (JPrim (PStr "done")))]
           "callback_poll_result" followup None st')
    /\ obj_get "callback" followup = Some (FValue (VPrim (PNum 0)))
    /\ obj_get "result" followup
       = Some (FJson (JEnvelope
                        (Envelope None (Some (WPrim (PNum 42))) None None None)))
    /\ obj_get "callback_call_counter" followup
       = Some (FValue (VPrim (PNum 3))).
Proof.
  destruct (callback_followup sample_runtime
              (callback_reply 0
                 (Envelope None (Some (WPrim (PNum 42))) None None None)
                 (Envelope None (Some (WArray [])) None None None) 3)
              [result_reply (Some (JPrim (PStr "done")))]
              "callbacks_poll" [] None session_state "localhost" _ 0 _ _
              eq_refl eq_refl eq_refl eq_refl eq_refl)
    as (st' & followup & Hsend & Hcallback & Hresult & _ & _ & Hcounter & _).
  exists st', followup. repeat split; assumption.
Defined.


(** C8 fails on the code for a callback that throws [null] or
    [undefined].  The handler of the callback block reads [e.message], which
    fails on such a value: the TypeError of the engine leaves [sendRequest]
    and reaches the original caller, and no follow-up request is posted. *)
Theorem callback_nullish_exception_escapes (rt : Runtime) (reply : http_reply)
    (rest : list http_reply) (command : string) (data : payload)
    (host : option string) (st : rpc_state) (h : string) (r : response)
    (callback : Z) (fn : fn) (thisObject args e : jsval) :
  resolve_host host (clearTimeout st) = Some h ->
  makeRequest reply = Ok (BObject r) ->
  truthy_error (resp_error r) = false ->
  resp_callback r = Some callback ->
  deserialize_member rt (registeredCallbacks st)
    (data_realmId (with_session data st)) (resp_this r) = Ok thisObject ->
  deserialize_member rt (registeredCallbacks st)
    (data_realmId (with_session data st)) (resp_arguments r) = Ok args ->
  array_get (registeredCallbacks st) callback = Some fn ->
  fn_apply rt fn thisObject args = Threw e ->
  is_nullish e = true ->
  exists st',
    sendRequest rt (reply :: rest) command data host st
    = Done (Raise TypeError) st' rest
    /\ posted st'
       = (posted st ++ [(request_url h command, with_session data st)])%list.
Proof.
  intros Hh Hreply Herr Hcb Hthis Hargs Hfn Hthrow He.
  rewrite (sendRequest_callback_outcome rt reply rest command data host st h r
             callback Hh Hreply Herr Hcb).
  unfold run_callback. rewrite Hthis, Hargs, Hfn, Hthrow.
  unfold catch_callback. rewrite He.
  eexists. split; reflexivity.
Qed.

Lemma callback_nullish_exception_escapes_witness :
  exists st',
    sendRequest sample_runtime
      [callback_reply 1 (Envelope None (Some (WPrim (PNum 42))) None None None)
         (Envelope None (Some (WPrim PNull)) None None None) 3;
       result_reply (Some (JPrim (PStr "done")))]
      "call_method" [] None (set_registeredCallbacks [2%nat; 3%nat] session_state)
    = Done (Raise TypeError) st' [result_reply (Some (JPrim (PStr "done")))]
    /\ posted st'
       = (posted session_state
          ++ [("http://localhost/call_method",
               [("sessionId", FJson (JPrim (PNum 1)))])])%list.
Proof.
  exact (callback_nullish_exception_escapes sample_runtime
           (callback_reply 1
              (Envelope None (Some (WPrim (PNum 42))) None None None)
              (Envelope None (Some (WPrim PNull)) None None None) 3)
           [result_reply (Some (JPrim (PStr "done")))]
           "call_method" [] None
           (set_registeredCallbacks [2%nat; 3%nat] session_state) "localhost"
           _ 1 3%nat (VPrim (PNum 42)) (VPrim PNull) (VPrim PNull)
           eq_refl eq_refl eq_refl eq_refl eq_refl eq_refl eq_refl eq_refl
           eq_refl).
Defined.

(** * How the registry grows *)

Lemma continues_refl (reg : list fn) : continues reg reg.
Proof. split; [exists []; by rewrite app_nil_r|done]. Qed.

Lemma continues_trans (reg1 reg2 reg3 : list fn) :
  continues reg1 reg2 -> continues reg2 reg3 -> continues reg1 reg3.
Proof.
  intros [[a ->] Ha] [[b ->] Hb]. split.
  - exists (a ++ b)%list. by rewrite app_assoc.
  - auto.
Qed.

Lemma continues_get (reg reg' : list fn) (n : Z) (f : fn) :
  continues reg reg' -> array_get reg n = Some f -> array_get reg' n = Some f.
Proof. intros [[ext ->] _]. apply array_get_app. Qed.

Lemma continues_elem (reg reg' : list fn) (f : fn) :
  continues reg reg' -> f ∈ reg -> f ∈ reg'.
Proof. intros [[ext ->] _] Hf. apply elem_of_app. by left. Qed.

Lemma registerCallback_continues (reg : list fn) (f : fn) :
  continues reg (snd (registerCallback reg f)).
Proof.
  destruct (decide (f ∈ reg)) as [Hin|Hout].
  - rewrite registerCallback_known by done. apply continues_refl.
  - unfold registerCallback, indexOf. rewrite indexOf_from_absent by done.
    simpl. split; [by exists [f]|].
    intros Hnd. apply NoDup_app. split; [done|]. split; [|apply NoDup_singleton].
    intros g Hg ->%list_elem_of_singleton. done.
Qed.

Lemma Array_map_continues {A : Type} (rt : Runtime) (realmId : handle)
    (proj : A -> jsval) (items : list A) :
  Forall (fun x => forall reg,
            continues reg (snd (serialize rt reg realmId (proj x)))) items ->
  forall reg,
    continues reg
      (snd (Array_map (fun reg x => serialize rt reg realmId (proj x)) reg items)).
Proof.
  induction 1 as [|x items Hx _ IH]; intros reg; simpl.
  - apply continues_refl.
  - specialize (Hx reg).
    destruct (serialize rt reg realmId (proj x)) as [e reg1]. simpl in Hx.
    specialize (IH reg1).
    destruct (Array_map _ reg1 items) as [es reg2]. simpl in *.
    by eapply continues_trans.
Qed.

Lemma serialize_continues (rt : Runtime) (realmId : handle) (v : jsval) :
  forall reg, continues reg (snd (serialize rt reg realmId v)).
Proof.
  induction v as [|p|f|id time|id items IH|id bytes|id props IH]
    using jsval_ind; intros reg; cbn [serialize].
  - apply continues_refl.
  - apply continues_refl.
  - pose proof (registerCallback_continues reg f) as H.
    by destruct (registerCallback reg f).
  - destruct (truthy_handle id); apply continues_refl.
  - destruct (truthy_handle id); [apply continues_refl|].
    pose proof (Array_map_continues rt realmId (fun x => x) items IH reg) as H.
    by destruct (Array_map _ reg items).
  - destruct (truthy_handle id); apply continues_refl.
  - destruct (truthy_handle id); [apply continues_refl|].
    pose proof (Array_map_continues rt realmId snd props IH reg) as H.
    by destruct (Array_map _ reg props).
Qed.

Lemma serialize_all_continues (rt : Runtime) (realmId : handle)
    (args : list jsval) (reg : list fn) :
  continues reg
    (snd (Array_map (fun reg arg => serialize rt reg realmId arg) reg args)).
Proof.
  apply (Array_map_continues rt realmId (fun x => x)).
  apply Forall_forall. intros x _. apply serialize_continues.
Qed.

(** X1.  [serialize] only ever appends to the callback registry: whatever
    value is serialized, every handle that resolved before resolves to the
    same function afterwards, a registry without repetitions stays without
    repetitions, and the registry does not shrink. *)
Theorem serialize_keeps_handles (rt : Runtime) (reg : list fn)
    (realmId : handle) (v : jsval) :
  (forall n f,
     array_get reg n = Some f ->
     array_get (snd (serialize rt reg realmId v)) n = Some f)
  /\ (NoDup reg -> NoDup (snd (serialize rt reg realmId v)))
  /\ (length reg <= length (snd (serialize rt reg realmId v)))%nat.
Proof.
  pose proof (serialize_continues rt realmId v reg) as Hc.
  split; [|split].
  - intros n f. by apply continues_get.
  - apply Hc.
  - destruct Hc as [[ext ->] _]. rewrite length_app. lia.
Qed.

(** ** Serializing a value again *)

Lemma registerCallback_again (reg ext : list fn) (f : fn) :
  registerCallback (snd (registerCallback reg f) ++ ext) f
  = (fst (registerCallback reg f), (snd (registerCallback reg f) ++ ext)%list).
Proof.
  destruct (registerCallback_spec reg f) as (more & Hreg & Hkey & _ & Hin).
  rewrite Hreg, Hkey.
  rewrite registerCallback_known by (apply elem_of_app; by left).
  unfold indexOf. by rewrite indexOf_from_app.
Qed.

Lemma Array_map_again {A : Type} (rt : Runtime) (realmId : handle)
    (proj : A -> jsval) (items : list A) :
  Forall (fun x => forall reg ext,
            serialize rt (snd (serialize rt reg realmId (proj x)) ++ ext)
              realmId (proj x)
            = (fst (serialize rt reg realmId (proj x)),
               (snd (serialize rt reg realmId (proj x)) ++ ext)%list)) items ->
  forall reg ext,
    Array_map (fun reg x => serialize rt reg realmId (proj x))
      (snd (Array_map (fun reg x => serialize rt reg realmId (proj x)) reg items)
       ++ ext)%list items
    = (fst (Array_map (fun reg x => serialize rt reg realmId (proj x)) reg items),
       (snd (Array_map (fun reg x => serialize rt reg realmId (proj x)) reg items)
        ++ ext)%list).
Proof.
  induction 1 as [|x items Hx Hall IH]; intros reg ext; simpl; [done|].
  specialize (Hx reg).
  destruct (serialize rt reg realmId (proj x)) as [e reg1] eqn:Hser.
  simpl in Hx. specialize (IH reg1).
  pose proof (Array_map_continues rt realmId proj items
                (proj2 (Forall_forall _ _)
                   (fun x _ => serialize_continues rt realmId (proj x)))
                reg1) as [[more Hmore] _].
  destruct (Array_map _ reg1 items) as [es reg2] eqn:Hmap. simpl in *.
  subst reg2. rewrite <- app_assoc, Hx, app_assoc, IH. reflexivity.
Qed.

(** X2.  A value that was serialized once is serialized to the same
    envelope ever after, and registers nothing more: in the registry the
    first call left, and in every registry that extends it, [serialize]
    returns the envelope it returned the first time and leaves the registry
    as it is.  (Every function inside the value keeps the handle it
    got.) *)
Theorem serialize_again (rt : Runtime) (realmId : handle) (v : jsval) :
  forall reg ext,
    serialize rt (snd (serialize rt reg realmId v) ++ ext) realmId v
    = (fst (serialize rt reg realmId v),
       (snd (serialize rt reg realmId v) ++ ext)%list).
Proof.
  induction v as [|p|f|id time|id items IH|id bytes|id props IH]
    using jsval_ind; intros reg ext; cbn [serialize].
  - reflexivity.
  - reflexivity.
  - pose proof (registerCallback_again reg ext f) as Hagain.
    destruct (registerCallback reg f) as [key reg1]. simpl in *.
    by rewrite Hagain.
  - by destruct (truthy_handle id).
  - destruct (truthy_handle id); [reflexivity|].
    pose proof (Array_map_again rt realmId (fun x => x) items IH reg ext)
      as Hagain.
    destruct (Array_map _ reg items) as [es reg1]. simpl in *.
    by rewrite Hagain.
  - by destruct (truthy_handle id).
  - destruct (truthy_handle id); [reflexivity|].
    pose proof (Array_map_again rt realmId snd props IH reg ext) as Hagain.
    destruct (Array_map _ reg props) as [es reg1]. simpl in *.
    by rewrite Hagain.
Qed.

(** * The round trip of any value *)

Section Copies.
Variable rt : Runtime.
Hypothesis base64_decode_encode :
  forall bytes, base64_decode rt (base64_encode rt bytes) = bytes.
Variable realmId : handle.

Lemma Array_map_copies {A : Type} (proj : A -> jsval) (items : list A) :
  Forall (fun x => copies rt realmId (proj x)) items ->
  forallb (fun x => well_formed (proj x)) items = true ->
  forall reg ext,
    Forall2
      (fun e x =>
         deserialize rt
           (snd (Array_map (fun reg x => serialize rt reg realmId (proj x))
                   reg items) ++ ext) realmId e
         = Ok (local_copy (proj x)))
      (fst (Array_map (fun reg x => serialize rt reg realmId (proj x)) reg items))
      items.
Proof.
  induction 1 as [|x items Hx _ IH]; intros Hwf reg ext; simpl;
    [constructor|].
  simpl in Hwf. apply andb_prop in Hwf as [Hwx Hwrest].
  specialize (Hx Hwx reg).
  destruct (serialize rt reg realmId (proj x)) as [e reg1]. simpl in Hx.
  specialize (IH Hwrest reg1 ext).
  pose proof (Array_map_continues rt realmId proj items
                (proj2 (Forall_forall _ _)
                   (fun x _ => serialize_continues rt realmId (proj x)))
                reg1) as Hc.
  destruct (Array_map _ reg1 items) as [es reg2]. simpl in *.
  constructor; [|exact IH].
  destruct Hc as [[more ->] _]. rewrite <- app_assoc. apply Hx.
Qed.

Lemma serialize_copies (v : jsval) : copies rt realmId v.
Proof.
  induction v as [|p|f|id time|id items IH|id bytes|id props IH]
    using jsval_ind; intros Hwf reg ext; cbn [serialize local_copy];
    cbn [well_formed] in Hwf.
  - reflexivity.
  - reflexivity.
  - destruct (registerCallback_spec reg f) as (more & Hreg & _ & Hget & _).
    destruct (registerCallback reg f) as [key reg1]. simpl in *. subst reg1.
    unfold deserializeFunction. simpl.
    by rewrite (array_get_app _ ext _ _ Hget).
  - destruct (truthy_handle id); [reflexivity|]. simpl in Hwf. simpl.
    destruct time as [t|]; simpl; [|reflexivity].
    by rewrite (TimeClip_in_range t Hwf).
  - destruct (truthy_handle id); [reflexivity|]. simpl in Hwf.
    pose proof (Array_map_copies (fun x => x) items IH Hwf reg ext) as Hall.
    destruct (Array_map _ reg items) as [es reg1]. simpl in *.
    rewrite (Array_map_throws_all _ es (map local_copy items)); [done|].
    clear -Hall. induction Hall; simpl; constructor; auto.
  - destruct (truthy_handle id); [reflexivity|]. simpl.
    by rewrite base64_decode_encode.
  - destruct (truthy_handle id); [reflexivity|]. simpl in Hwf.
    apply andb_prop in Hwf as [Hnd Hwf]. apply bool_decide_eq_true in Hnd.
    pose proof (Array_map_copies snd props IH Hwf reg ext) as Hall.
    destruct (Array_map _ reg props) as [es reg1]. cbn [fst snd] in *.
    cbn [deserialize]. rewrite find_handler_dict.
    set (copy := map (fun kv : string * jsval => (fst kv, local_copy (snd kv)))
                   props).
    assert (Hkeys : map fst copy = map fst props).
    { unfold copy. rewrite map_map. by apply map_ext. }
    assert (Hall' : Forall2 (fun e kv =>
                               deserialize rt (reg1 ++ ext) realmId e
                               = Ok (snd kv)) es copy).
    { unfold copy. clear -Hall. induction Hall; simpl; constructor; auto. }
    assert (Hnd' : NoDup (map fst (@nil (string * jsval)) ++ map fst copy)).
    { simpl. by rewrite Hkeys. }
    pose proof (dict_loop_rebuild _ es copy [] Hall' Hnd') as Hloop.
    rewrite <- Hkeys. clearbody copy.
    destruct copy as [|kv copy']; [reflexivity|].
    by rewrite Hloop.
Qed.
End Copies.



(** * Values that were received *)

Lemma Array_map_throws_Forall2 {A B : Type} (f : A -> throws B)
    (items : list A) :
  forall ys,
    Array_map_throws f items = Ok ys ->
    Forall2 (fun item y => f item = Ok y) items ys.
Proof.
  induction items as [|item items IH]; intros ys; simpl.
  - intros [= <-]. constructor.
  - destruct (f item) as [y|e] eqn:Hy; [|discriminate].
    destruct (Array_map_throws f items) as [ys'|e]; [|discriminate].
    intros [= <-]. constructor; auto.
Qed.

Lemma obj_set_Forall {A : Type} (Q : A -> Prop) (k : string) (x : A)
    (o : list (string * A)) :
  Q x -> Forall (fun kv => Q (snd kv)) o ->
  Forall (fun kv => Q (snd kv)) (obj_set k x o).
Proof.
  intros Hx. induction 1 as [|[k' y] o Hy Ho IH]; simpl.
  - by repeat constructor.
  - destruct (String.eqb k k'); constructor; auto.
Qed.

Lemma dict_loop_Forall {A B : Type} (f : A -> throws B) (Q : B -> Prop)
    (values : list A) :
  Forall (fun item => forall y, f item = Ok y -> Q y) values ->
  forall keys acc object,
    Forall (fun kv => Q (snd kv)) acc ->
    dict_loop f values keys acc = Ok object ->
    Forall (fun kv => Q (snd kv)) object.
Proof.
  induction 1 as [|item values Hitem _ IH]; intros [|k keys] acc object Hacc;
    simpl; try discriminate; try (by intros [= <-]).
  destruct (f item) as [y|e] eqn:Hy; [|discriminate].
  apply IH. apply obj_set_Forall; auto.
Qed.

Lemma Array_map_settled {A : Type} (rt : Runtime) (reg : list fn)
    (realmId : handle) (proj : A -> jsval) (items : list A) :
  Forall (fun x => settled rt reg realmId (proj x)) items ->
  snd (Array_map (fun reg x => serialize rt reg realmId (proj x)) reg items)
  = reg
  /\ forallb (fun x => well_formed (proj x)) items = true
  /\ Forall (fun x => local_copy (proj x) = proj x) items.
Proof.
  induction 1 as [|x items (Hwf & Hcopy & Hreg) _ (IHreg & IHwf & IHcopy)];
    simpl; [by repeat split|].
  destruct (serialize rt reg realmId (proj x)) as [e reg1]. simpl in Hreg.
  subst reg1.
  destruct (Array_map _ reg items) as [es reg2]. simpl in *. subst reg2.
  rewrite Hwf, IHwf. repeat split. by constructor.
Qed.

Section Received.
Variable rt : Runtime.
Hypothesis Date_parse_range :
  forall s t, Date_parse rt s = Some t -> Z.abs t <= 8640000000000000.
Variable reg : list fn.
Variable realmId : handle.

Lemma date_time_range (value : option wire) :
  in_date_range (date_time (Date_parse rt) value) = true.
Proof.
  destruct value as [[[| [|] |n| |s]|items]|]; simpl; try reflexivity.
  - unfold TimeClip. destruct (Z.leb_spec (Z.abs n) 8640000000000000) as [H|H];
      simpl; [by apply Z.leb_le|reflexivity].
  - destruct (Date_parse rt s) as [t|] eqn:Ht; simpl; [|reflexivity].
    apply Z.leb_le. by eapply Date_parse_range.
Qed.

Lemma deserialize_settled (info : envelope) :
  forall v, deserialize rt reg realmId info = Ok v -> settled rt reg realmId v.
Proof.
  induction info as [type value id keys values IHvalue IHvalues]
    using envelope_ind.
  intros v. cbn [deserialize].
  destruct (find_handler type) as [[| | |]|].
  - destruct value as [[[| | | |text]|]|]; try discriminate.
    intros [= <-]. by repeat split.
  - intros [= <-]. repeat split. simpl. apply date_time_range.
  - destruct keys as [[|k keys]|]; try discriminate.
    + intros [= <-]. by repeat split.
    + destruct values as [values|]; [|discriminate].
      destruct (dict_loop _ values (k :: keys) []) as [object|e] eqn:Hloop;
        [|discriminate].
      intros [= <-].
      assert (Hall : Forall (fun kv => settled rt reg realmId (snd kv)) object).
      { eapply (dict_loop_Forall _ (settled rt reg realmId)); [|constructor|
          exact Hloop]. exact IHvalues. }
      pose proof (dict_loop_NoDup _ _ _ _ _ Hloop (NoDup_nil_2)) as Hnd.
      destruct (Array_map_settled rt reg realmId snd object Hall)
        as (Hreg & Hwf & Hcopy).
      repeat split.
      * simpl. rewrite Hwf, andb_true_r. by apply bool_decide_eq_true.
      * simpl. f_equal. clear -Hcopy.
        induction Hcopy as [|[k' y] object Hy _ IH]; simpl; [done|].
        simpl in Hy. by rewrite Hy, IH.
      * cbn [serialize truthy_handle].
        by destruct (Array_map _ reg object).
  - unfold deserializeFunction.
    destruct (env_value _) as [[[| |n| |]|]|];
      try (intros [= <-]; by repeat split).
    destruct (array_get reg n) as [f|] eqn:Hf; intros [= <-];
      [|by repeat split].
    repeat split. cbn [serialize].
    apply array_get_Some in Hf as [_ Hf].
    rewrite registerCallback_known; [done|].
    by eapply list_elem_of_lookup_2.
  - destruct value as [[p|items]|].
    + intros [= <-]. by repeat split.
    + destruct (Array_map_throws _ items) as [vs|e] eqn:Hmap; [|discriminate].
      intros [= <-].
      apply Array_map_throws_Forall2 in Hmap.
      assert (Hall : Forall (settled rt reg realmId) vs).
      { simpl in IHvalue. clear -IHvalue Hmap.
        induction Hmap as [|item y items vs Hy _ IH]; [constructor|].
        apply Forall_cons in IHvalue as [Hitem Hitems].
        constructor; auto. }
      destruct (Array_map_settled rt reg realmId (fun x => x) vs Hall)
        as (Hreg & Hwf & Hcopy).
      repeat split.
      * exact Hwf.
      * simpl. f_equal. clear -Hcopy.
        induction Hcopy as [|y vs Hy _ IH]; simpl; [done|].
        by rewrite Hy, IH.
      * cbn [serialize truthy_handle].
        by destruct (Array_map _ reg vs).
    + intros [= <-]. by repeat split.
Qed.
End Received.



(** * Dictionaries *)

Lemma dict_loop_short {A B : Type} (f : A -> throws B) (values : list A) :
  forall keys acc object,
    (length values < length keys)%nat ->
    dict_loop f values keys acc <> Ok object.
Proof.
  induction values as [|item values IH]; intros [|k keys] acc object Hlen;
    simpl in *; try lia; try discriminate.
  destruct (f item) as [y|e]; [|discriminate]. apply IH. lia.
Qed.

Lemma dict_loop_surplus {A B : Type} (f : A -> throws B)
    (values surplus : list A) :
  forall keys acc,
    (length keys <= length values)%nat ->
    dict_loop f (values ++ surplus) keys acc = dict_loop f values keys acc.
Proof.
  induction values as [|item values IH]; intros [|k keys] acc Hlen;
    simpl in *; try lia; try reflexivity.
  - by destruct surplus.
  - destruct (f item) as [y|e]; [|reflexivity]. apply IH. lia.
Qed.

Lemma dict_loop_keys {A B : Type} (f : A -> throws B) (values : list A) :
  forall keys acc object,
    dict_loop f values keys acc = Ok object ->
    forall k, k ∈ map fst object <-> k ∈ map fst acc \/ k ∈ keys.
Proof.
  induction values as [|item values IH]; intros [|k' keys] acc object; simpl;
    try discriminate.
  - intros [= <-] k. rewrite elem_of_nil. tauto.
  - intros [= <-] k. rewrite elem_of_nil. tauto.
  - destruct (f item) as [y|e]; [|discriminate].
    intros Hloop k. rewrite (IH _ _ _ Hloop k), obj_set_keys.
    case_decide; rewrite ?elem_of_app, ?list_elem_of_singleton, elem_of_cons.
    + split; [intros [?|?]; auto|intros [?|[->|?]]; auto].
    + tauto.
Qed.


Lemma serialize_plain_members (rt : Runtime) (realmId : handle)
    (props : list (string * jsval)) :
  Forall (fun kv =>
            plain_data (snd kv) = true ->
            forall reg,
              json_member (fst (serialize rt reg realmId (snd kv)))
              = Ok (error_view (snd kv))) props ->
  forallb (fun kv => plain_data (snd kv)) props = true ->
  forall reg,
    Forall2 (fun e kv => json_member e = Ok (snd kv))
      (fst (Array_map (fun reg kv => serialize rt reg realmId (snd kv)) reg
              props))
      (map (fun kv => (fst kv, error_view (snd kv))) props).
Proof.
  induction 1 as [|kv props Hkv _ IH]; intros Hplain reg; simpl;
    [constructor|].
  simpl in Hplain. apply andb_prop in Hplain as [Hp Hrest].
  specialize (Hkv Hp reg).
  destruct (serialize rt reg realmId (snd kv)) as [e reg1]. simpl in Hkv.
  specialize (IH Hrest reg1).
  destruct (Array_map _ reg1 props) as [es reg2]. simpl in *.
  by constructor.
Qed.

Lemma serialize_plain_member (rt : Runtime) (realmId : handle) (v : jsval) :
  plain_data v = true ->
  forall reg,
    json_member (fst (serialize rt reg realmId v)) = Ok (error_view v).
Proof.
  induction v as [|p|f|id time|id items IH|id bytes|id props IH]
    using jsval_ind; intros Hplain reg; cbn [serialize];
    cbn [plain_data] in Hplain; try discriminate.
  - reflexivity.
  - reflexivity.
  - apply negb_true_iff in Hplain. by rewrite Hplain.
  - apply andb_prop in Hplain as [[Hid Hnd]%andb_prop Hplain].
    apply negb_true_iff in Hid. apply bool_decide_eq_true in Hnd.
    rewrite Hid.
    pose proof (serialize_plain_members rt realmId props IH Hplain reg)
      as Hall.
    destruct (Array_map _ reg props) as [es reg1]. cbn [fst] in *.
    unfold json_member. cbn [env_type is_dict objectTypes.DICT String.eqb
                              Ascii.eqb Bool.eqb].
    cbn [deserialize_json_value error_view].
    set (view := map (fun kv : string * jsval => (fst kv, error_view (snd kv)))
                   props) in *.
    assert (Hkeys : map fst view = map fst props).
    { unfold view. rewrite map_map. by apply map_ext. }
    assert (Hnd' : NoDup (map fst (@nil (string * error_value))
                          ++ map fst view)).
    { simpl. by rewrite Hkeys. }
    pose proof (dict_loop_rebuild json_member es view [] Hall Hnd') as Hloop.
    rewrite <- Hkeys. clearbody view.
    destruct view as [|kv view']; [reflexivity|].
    unfold json_member in Hloop. by rewrite Hloop.
Qed.



(** * Invariants of the dispatcher *)

Lemma run_callback_continues (rt : Runtime) (reg : list fn) (realmId : handle)
    (r : response) (callback : Z) :
  continues reg (snd (run_callback rt reg realmId r callback)).
Proof.
  unfold run_callback.
  destruct (deserialize_member rt reg realmId (resp_this r));
    [|apply continues_refl].
  destruct (deserialize_member rt reg realmId (resp_arguments r));
    [|apply continues_refl].
  destruct (array_get reg callback) as [f|]; [|apply continues_refl].
  destruct (fn_apply rt f _ _) as [v|e]; [|apply continues_refl].
  pose proof (serialize_continues rt realmId v reg) as Hc.
  by destruct (serialize rt reg realmId v).
Qed.

(** A property of the state kept by what a cycle does (cancelling and
    arming the timer, posting a request with the session identifier
    attached, updating the poll interval, letting the registry grow) is
    kept by [sendRequest]; one that the session handshake and the reset
    keep as well is kept by every call into the module. *)
Section Invariant.
Variable rt : Runtime.
Variable Q : rpc_state -> Prop.
Hypothesis Q_clearTimeout : forall st, Q st -> Q (clearTimeout st).
Hypothesis Q_arm_poll : forall st, Q st -> Q (arm_poll st).
Hypothesis Q_post :
  forall h command data st,
    Q st -> Q (post (request_url h command) (with_session data st) st).
Hypothesis Q_backoff :
  forall callback command st,
    Q st -> Q (set_pollTimeout (backoff callback command (pollTimeout st)) st).
Hypothesis Q_registry :
  forall reg st,
    Q st -> continues (registeredCallbacks st) reg ->
    Q (set_registeredCallbacks reg st).

Lemma finally_arm_poll_invariant (o : outcome) :
  Q (state_of o) -> Q (state_of (finally_arm_poll o)).
Proof. destruct o; simpl; auto. Qed.

Lemma handle_response_invariant
    (self : string -> payload -> rpc_state -> outcome)
    (rest : list http_reply) (command : string) (data : payload)
    (response : body) (st : rpc_state) :
  (forall c d s, Q s -> Q (state_of (self c d s))) ->
  Q st ->
  Q (state_of (handle_response rt self rest command data response st)).
Proof.
  intros Hself HQ. unfold handle_response.
  destruct (error_outcome response); [done|].
  destruct response as [p|r]; [done|].
  destruct (response_callback (BObject r)) as [callback|]; [|done].
  pose proof (run_callback_continues rt (registeredCallbacks st)
                (data_realmId data) r callback) as Hc.
  destruct (run_callback rt _ _ r callback) as [[report|e] reg]; simpl in *.
  - by apply Hself, Q_registry.
  - by apply Q_registry.
Qed.

Lemma sendRequest_invariant (replies : list http_reply) :
  forall command data host st,
    Q st -> Q (state_of (sendRequest rt replies command data host st)).
Proof.
  induction replies as [|reply rest IH]; intros command data host st HQ;
    destruct (resolve_host host (clearTimeout st)) as [h|] eqn:Hh;
    try (rewrite sendRequest_no_host by done; simpl;
         by apply Q_arm_poll, Q_clearTimeout).
  - rewrite (sendRequest_unanswered _ _ _ _ _ h Hh). simpl.
    by apply Q_post, Q_clearTimeout.
  - rewrite (sendRequest_answered _ _ _ _ _ _ _ h Hh).
    apply finally_arm_poll_invariant. unfold after_reply.
    destruct (makeRequest reply) as [response|e].
    + apply handle_response_invariant; [intros c d s; apply IH|].
      by apply Q_backoff, Q_post, Q_clearTimeout.
    + by apply Q_post, Q_clearTimeout.
Qed.

Lemma registered_invariant (replies : list http_reply) (command : string)
    (data : payload) (reg : list fn) (st : rpc_state) :
  Q st -> continues (registeredCallbacks st) reg ->
  Q (state_of (sendRequest rt replies command data None
                 (set_registeredCallbacks reg st))).
Proof. intros HQ Hc. by apply sendRequest_invariant, Q_registry. Qed.

Lemma callMethod_invariant (replies : list http_reply) (realmId : handle)
    (id : prim) (name : string) (args : option (list jsval)) (st : rpc_state) :
  Q st -> Q (final_state (callMethod rt replies realmId id name args st)).
Proof.
  intros HQ. unfold callMethod. destruct args as [args|].
  - pose proof (serialize_all_continues rt realmId args (registeredCallbacks st))
      as Hc.
    destruct (Array_map _ (registeredCallbacks st) args) as [es reg].
    match goal with
    | |- context [sendRequest rt replies ?c ?d None _] =>
        pose proof (registered_invariant replies c d reg st HQ Hc) as Hsend;
        destruct (sendRequest rt replies c d None _) as [[r|err] st' rest|st']
    end; exact Hsend.
  - match goal with
    | |- context [sendRequest rt replies ?c ?d None _] =>
        pose proof (registered_invariant replies c d (registeredCallbacks st)
                      st HQ (continues_refl _)) as Hsend;
        destruct (sendRequest rt replies c d None _) as [[r|err] st' rest|st']
    end; exact Hsend.
Qed.

Lemma getProperty_invariant (replies : list http_reply) (realmId : handle)
    (id : prim) (name : string) (st : rpc_state) :
  Q st -> Q (final_state (getProperty rt replies realmId id name st)).
Proof.
  intros HQ. unfold getProperty.
  match goal with
  | |- context [sendRequest rt replies ?c ?d None ?s] =>
      pose proof (sendRequest_invariant replies c d None s HQ) as Hsend;
      destruct (sendRequest rt replies c d None s) as [[r|err] st' rest|st']
  end; exact Hsend.
Qed.

Lemma setProperty_invariant (replies : list http_reply) (realmId : handle)
    (id : prim) (name : string) (value : jsval) (st : rpc_state) :
  Q st -> Q (final_state (setProperty rt replies realmId id name value st)).
Proof.
  intros HQ. unfold setProperty.
  pose proof (serialize_continues rt realmId value (registeredCallbacks st))
    as Hc.
  destruct (serialize rt _ realmId value) as [e reg]. simpl in Hc.
  match goal with
  | |- context [sendRequest rt replies ?c ?d None _] =>
      pose proof (registered_invariant replies c d reg st HQ Hc) as Hsend;
      destruct (sendRequest rt replies c d None _) as [[r|err] st' rest|st']
  end; exact Hsend.
Qed.

Lemma createRealm_invariant (replies : list http_reply) (beforeNotify : fn)
    (args : option (list jsval)) (st : rpc_state) :
  Q st -> Q (state_of (createRealm rt replies beforeNotify args st)).
Proof.
  intros HQ. unfold createRealm.
  assert (Hargs : exists arguments reg,
            match args with
            | Some args =>
                let '(es, reg) :=
                  Array_map (fun reg arg => serialize rt reg (Some PNull) arg)
                    (registeredCallbacks st) args in
                (FJson (JEnvelopes es), reg)
            | None => (FValue VUndefined, registeredCallbacks st)
            end = (arguments, reg)
            /\ continues (registeredCallbacks st) reg).
  { destruct args as [args|].
    - pose proof (serialize_all_continues rt (Some PNull) args
                    (registeredCallbacks st)) as Hc.
      destruct (Array_map _ (registeredCallbacks st) args) as [es reg].
      by eexists _, _.
    - eexists _, _. split; [reflexivity|apply continues_refl]. }
  destruct Hargs as (arguments & reg & -> & Hc).
  pose proof (serialize_continues rt (Some PNull) (VFunction beforeNotify) reg)
    as Hc'.
  destruct (serialize rt reg (Some PNull) (VFunction beforeNotify))
    as [e reg']. simpl in Hc'.
  apply registered_invariant; [done|]. by eapply continues_trans.
Qed.

Lemma user_call_invariant (command : string) (replies : list http_reply)
    (args : list jsval) (st : rpc_state) :
  Q st -> Q (final_state (user_call rt command replies args st)).
Proof.
  intros HQ. unfold user_call.
  pose proof (serialize_all_continues rt (Some PNull) args
                (registeredCallbacks st)) as Hc.
  destruct (Array_map _ (registeredCallbacks st) args) as [es reg].
  match goal with
  | |- context [sendRequest rt replies ?c ?d None _] =>
      pose proof (registered_invariant replies c d reg st HQ Hc) as Hsend;
      destruct (sendRequest rt replies c d None _) as [[r|err] st' rest|st']
  end; exact Hsend.
Qed.

Lemma reconnect_invariant (replies : list http_reply) (st : rpc_state) :
  Q st -> Q (final_state (reconnect rt replies st)).
Proof.
  intros HQ. unfold reconnect.
  match goal with
  | |- context [sendRequest rt replies ?c ?d None ?s] =>
      pose proof (sendRequest_invariant replies c d None s HQ) as Hsend;
      destruct (sendRequest rt replies c d None s) as [[r|err] st' rest|st']
  end; exact Hsend.
Qed.

Lemma _initializeSyncManager_invariant (replies : list http_reply)
    (args : list jsval) (st : rpc_state) :
  Q st -> Q (final_state (_initializeSyncManager rt replies args st)).
Proof.
  intros HQ. unfold _initializeSyncManager.
  pose proof (serialize_all_continues rt (Some PNull) args
                (registeredCallbacks st)) as Hc.
  destruct (Array_map _ (registeredCallbacks st) args) as [es reg].
  match goal with
  | |- context [sendRequest rt replies ?c ?d None _] =>
      pose proof (registered_invariant replies c d reg st HQ Hc) as Hsend;
      destruct (sendRequest rt replies c d None _) as [[r|err] st' rest|st']
  end; exact Hsend.
Qed.

Lemma hasExistingSessions_invariant (replies : list http_reply)
    (st : rpc_state) :
  Q st -> Q (final_state (hasExistingSessions rt replies st)).
Proof.
  intros HQ. unfold hasExistingSessions.
  match goal with
  | |- context [sendRequest rt replies ?c ?d None ?s] =>
      pose proof (sendRequest_invariant replies c d None s HQ) as Hsend;
      destruct (sendRequest rt replies c d None s) as [[r|err] st' rest|st']
  end; exact Hsend.
Qed.

Lemma getAllUsers_invariant (replies : list http_reply) (st : rpc_state) :
  Q st -> Q (final_state (getAllUsers rt replies st)).
Proof.
  intros HQ. unfold getAllUsers.
  match goal with
  | |- context [sendRequest rt replies ?c ?d None ?s] =>
      pose proof (sendRequest_invariant replies c d None s HQ) as Hsend;
      destruct (sendRequest rt replies c d None s) as [[r|err] st' rest|st']
  end; exact Hsend.
Qed.

Hypothesis Q_persistent :
  forall f st,
    Q st ->
    Q {| registeredCallbacks := registeredCallbacks st;
         persistentCallback := {[f]} ∪ persistentCallback st;
         sessionHost := sessionHost st;
         sessionId := sessionId st;
         pollTimeoutId := pollTimeoutId st;
         pollTimeout := pollTimeout st;
         timers := timers st;
         next_timer := next_timer st;
         posted := posted st |}.
Hypothesis Q_session :
  forall host id st,
    Q st ->
    Q {| registeredCallbacks := registeredCallbacks st;
         persistentCallback := persistentCallback st;
         sessionHost := host;
         sessionId := id;
         pollTimeoutId := pollTimeoutId st;
         pollTimeout := pollTimeout st;
         timers := timers st;
         next_timer := next_timer st;
         posted := posted st |}.
Hypothesis Q_clear :
  forall st,
    Q st ->
    Q (set_registeredCallbacks
         (clear_callbacks (persistentCallback st) (registeredCallbacks st)) st).

Lemma createSession_invariant (replies : list http_reply) (token : fn)
    (host : option string) (st : rpc_state) :
  Q st -> Q (state_of (createSession rt replies token host st)).
Proof.
  intros HQ. unfold createSession. cbv zeta. cbn [registeredCallbacks].
  pose proof (serialize_continues rt None (VFunction token)
                (registeredCallbacks st)) as Hc.
  destruct (serialize rt (registeredCallbacks st) None (VFunction token))
    as [e reg]. simpl in Hc.
  match goal with
  | |- context [sendRequest rt replies ?c ?d host ?s] =>
      pose proof (sendRequest_invariant replies c d host s) as Hsend;
      destruct (sendRequest rt replies c d host s) as [[id|err] st' rest|st']
  end; simpl in *.
  - apply Q_session, Hsend, Q_registry; [by apply Q_persistent|done].
  - apply Hsend, Q_registry; [by apply Q_persistent|done].
  - apply Hsend, Q_registry; [by apply Q_persistent|done].
Qed.

Lemma clearTestState_invariant (replies : list http_reply) (st : rpc_state) :
  Q st -> Q (state_of (clearTestState rt replies st)).
Proof.
  intros HQ. unfold clearTestState.
  pose proof (sendRequest_invariant replies "clear_test_state" [] None st HQ)
    as Hsend.
  destruct (sendRequest rt replies _ _ None st) as [[r|err] st' rest|st'];
    simpl in *; auto.
Qed.

Lemma run_call_invariant (replies : list http_reply) (c : api_call)
    (st : rpc_state) :
  Q st -> Q (state_of (run_call rt replies c st)).
Proof.
  destruct c; simpl;
    auto using sendRequest_invariant, createSession_invariant,
      clearTestState_invariant.
Qed.

Lemma left_after_state (o : outcome) : fst (left_after o) = state_of o.
Proof. by destruct o. Qed.

Lemma left_by_state {A : Type} (o : finished A) :
  fst (left_by o) = final_state o.
Proof. by destruct o. Qed.

Lemma run_module_call_invariant (beforeNotify : fn)
    (replies : list http_reply) (c : module_call) (st : rpc_state) :
  Q st -> Q (fst (run_module_call rt beforeNotify replies c st)).
Proof.
  intros HQ. destruct c; cbn [run_module_call];
    rewrite ?left_after_state, ?left_by_state.
  - by apply run_call_invariant.
  - by apply createRealm_invariant.
  - by apply user_call_invariant.
  - by apply user_call_invariant.
  - by apply user_call_invariant.
  - by apply reconnect_invariant.
  - by apply _initializeSyncManager_invariant.
  - by apply hasExistingSessions_invariant.
  - by apply callMethod_invariant.
  - by apply getProperty_invariant.
  - by apply setProperty_invariant.
  - by apply getAllUsers_invariant.
Qed.

Lemma run_module_calls_invariant (beforeNotify : fn)
    (calls : list module_call) :
  forall replies st,
    Q st -> Q (run_module_calls rt beforeNotify calls replies st).
Proof.
  induction calls as [|c calls IH]; intros replies st HQ; simpl; [done|].
  pose proof (run_module_call_invariant beforeNotify replies c st HQ) as H.
  destruct (run_module_call rt beforeNotify replies c st) as [st' [rest|]];
    simpl in H; auto.
Qed.
End Invariant.

(** ** What a call leaves alone *)

Lemma sendRequest_continues (rt : Runtime) (replies : list http_reply)
    (command : string) (data : payload) (host : option string)
    (st : rpc_state) :
  continues (registeredCallbacks st)
    (registeredCallbacks (state_of (sendRequest rt replies command data host st))).
Proof.
  apply (sendRequest_invariant rt
           (fun s => continues (registeredCallbacks st) (registeredCallbacks s)));
    simpl; auto using continues_refl.
  intros reg s Hs Hc. by eapply continues_trans.
Qed.

Lemma sendRequest_keeps_session (rt : Runtime) (replies : list http_reply)
    (command : string) (data : payload) (host : option string)
    (st : rpc_state) :
  sessionId (state_of (sendRequest rt replies command data host st))
  = sessionId st
  /\ sessionHost (state_of (sendRequest rt replies command data host st))
     = sessionHost st
  /\ persistentCallback (state_of (sendRequest rt replies command data host st))
     = persistentCallback st.
Proof.
  apply (sendRequest_invariant rt
           (fun s => sessionId s = sessionId st
                     /\ sessionHost s = sessionHost st
                     /\ persistentCallback s = persistentCallback st));
    simpl; auto.
Qed.

Lemma sendRequest_returns_host (rt : Runtime) (replies rest : list http_reply)
    (command : string) (data : payload) (host : option string)
    (st st' : rpc_state) (r : option json) :
  sendRequest rt replies command data host st = Done (Ok r) st' rest ->
  exists h, resolve_host host (clearTimeout st) = Some h.
Proof.
  intros Hsend. destruct (resolve_host host (clearTimeout st)) as [h|] eqn:Hh;
    [by exists h|].
  by rewrite sendRequest_no_host in Hsend.
Qed.

Lemma sendRequest_plain_result (rt : Runtime) (reply : http_reply)
    (rest : list http_reply) (command : string) (data : payload)
    (host : option string) (st : rpc_state) (h : string) (r : response) :
  resolve_host host (clearTimeout st) = Some h ->
  makeRequest reply = Ok (BObject r) ->
  truthy_error (resp_error r) = false ->
  resp_callback r = None ->
  exists st',
    sendRequest rt (reply :: rest) command data host st
    = Done (Ok (resp_result r)) st' rest
    /\ registeredCallbacks st' = registeredCallbacks st
    /\ posted st'
       = (posted st ++ [(request_url h command, with_session data st)])%list.
Proof.
  intros Hh Hreply Herr Hcb.
  rewrite (sendRequest_cycle rt reply rest command data host st h (BObject r)
             Hh Hreply).
  unfold handle_response. cbn [error_outcome response_callback].
  rewrite Herr, Hcb. by eexists.
Qed.

(** ** The registry never holds a function twice *)

Lemma clear_callbacks_NoDup (P : gset fn) (reg : list fn) :
  NoDup reg -> NoDup (clear_callbacks P reg).
Proof. apply NoDup_filter. Qed.

Lemma array_get_inj {A : Type} (l : list A) (i j : Z) (x : A) :
  NoDup l -> array_get l i = Some x -> array_get l j = Some x -> i = j.
Proof.
  unfold array_get. intros Hnd Hi Hj.
  destruct (Z.ltb_spec i 0); [done|]. destruct (Z.ltb_spec j 0); [done|].
  pose proof (NoDup_lookup l _ _ x Hnd Hi Hj). lia.
Qed.

(** X7.  Handles are unambiguous at any time.  After any sequence of calls
    into the module (the dispatcher, the session handshake, the reset and
    the callers of the dispatcher), against any answers of the transport
    and with any callbacks run in between, the registry holds no function
    twice: two handles that resolve to the same function are the same
    handle. *)
Theorem registry_handles_distinct (rt : Runtime) (beforeNotify : fn)
    (calls : list module_call) (replies : list http_reply) :
  NoDup (registeredCallbacks
           (run_module_calls rt beforeNotify calls replies initial_state))
  /\ forall i j f,
       array_get
         (registeredCallbacks
            (run_module_calls rt beforeNotify calls replies initial_state))
         i = Some f ->
       array_get
         (registeredCallbacks
            (run_module_calls rt beforeNotify calls replies initial_state))
         j = Some f ->
       i = j.
Proof.
  assert (Hnd : NoDup (registeredCallbacks
                         (run_module_calls rt beforeNotify calls replies
                            initial_state))).
  { apply (run_module_calls_invariant rt
             (fun s => NoDup (registeredCallbacks s))); simpl; auto.
    - intros reg st Hst Hc. by apply Hc.
    - intros st. apply clear_callbacks_NoDup.
    - apply NoDup_nil_2. }
  split; [exact Hnd|]. intros i j f. by apply array_get_inj.
Qed.

(** ** The persistent callbacks registered first keep their handles *)

Lemma persistent_prefix_kept (rt : Runtime) (beforeNotify : fn)
    (prefix : list fn) (calls : list module_call) (replies : list http_reply)
    (st : rpc_state) :
  (forall f, f ∈ prefix -> f ∈ persistentCallback st) ->
  (exists more, registeredCallbacks st = (prefix ++ more)%list) ->
  exists more,
    registeredCallbacks (run_module_calls rt beforeNotify calls replies st)
    = (prefix ++ more)%list.
Proof.
  intros Hp Hreg.
  apply (run_module_calls_invariant rt
           (fun s => (forall f, f ∈ prefix -> f ∈ persistentCallback s)
                     /\ exists more,
                          registeredCallbacks s = (prefix ++ more)%list));
    simpl; auto.
  - intros reg s [Hs [more Hmore]] [[ext ->] _]. split; [done|].
    exists (more ++ ext)%list. rewrite Hmore. by rewrite app_assoc.
  - intros f s [Hs Hmore]. split; [|done]. intros g Hg.
    by apply elem_of_union_r, Hs.
  - intros s [Hs [more Hmore]]. split; [done|].
    exists (clear_callbacks (persistentCallback s) more).
    unfold clear_callbacks. rewrite Hmore, filter_app. f_equal.
    clear -Hs. induction prefix as [|f prefix IH]; [done|].
    rewrite filter_cons_True by (apply Hs; left).
    f_equal. apply IH. intros g Hg. apply Hs. by right.
Qed.

(** X8.  The refresh-token callback of the first session keeps handle 0.
    When [createSession] is the first call into the module, the function
    passed as [refreshAccessToken] is registered under handle 0, and handle
    0 resolves to it after any further calls: the resets of
    [clearTestState], later sessions and failed or unanswered requests
    included. *)
Theorem refreshAccessToken_handle_zero (rt : Runtime) (beforeNotify : fn)
    (refreshAccessToken : fn) (host : option string)
    (calls : list module_call) (replies : list http_reply) :
  array_get
    (registeredCallbacks
       (run_module_calls rt beforeNotify
          (call_api (call_createSession refreshAccessToken host) :: calls)
          replies initial_state))
    0
  = Some refreshAccessToken.
Proof.
  assert (Hfirst :
            forall st,
              st = state_of (createSession rt replies refreshAccessToken host
                               initial_state) ->
              (forall f, f ∈ [refreshAccessToken] -> f ∈ persistentCallback st)
              /\ exists more,
                   registeredCallbacks st
                   = ([refreshAccessToken] ++ more)%list).
  { intros st ->. unfold createSession. cbv zeta.
    cbn [registeredCallbacks initial_state serialize registerCallback indexOf
           indexOf_from Z.leb Z.compare app length].
    match goal with
    | |- context [sendRequest rt replies ?c ?d host ?s] =>
        pose proof (sendRequest_continues rt replies c d host s)
          as [[ext Hext] _];
        pose proof (sendRequest_keeps_session rt replies c d host s)
          as (_ & _ & Hpers);
        destruct (sendRequest rt replies c d host s) as [[id|err] st' rest|st']
    end; simpl in *; rewrite Hpers, Hext;
      (split; [intros f ->%list_elem_of_singleton;
               by apply elem_of_union_l, elem_of_singleton
              |by exists ext]). }
  cbn [run_module_calls run_module_call run_call].
  destruct (createSession rt replies refreshAccessToken host initial_state)
    as [r st rest|st]; simpl in Hfirst;
    destruct (Hfirst st eq_refl) as [Hp Hreg]; cbn [left_after].
  - destruct (persistent_prefix_kept rt beforeNotify [refreshAccessToken]
                calls rest st Hp Hreg) as [more ->].
    reflexivity.
  - destruct Hreg as [more ->]. reflexivity.
Qed.

(** X9.  The poll interval stays within its range through every call into
    the module: after any sequence of calls (the callers of the dispatcher
    included), against any answers of the transport, [pollTimeout] is one
    of 10, 20, 40, ..., 640, 1280, hence at least 10 and at most 1280. *)
Theorem module_pollTimeout_range (rt : Runtime) (beforeNotify : fn)
    (calls : list module_call) (replies : list http_reply) :
  poll_ok (pollTimeout
             (run_module_calls rt beforeNotify calls replies initial_state))
  /\ 10 <= pollTimeout
             (run_module_calls rt beforeNotify calls replies initial_state)
     <= 1280.
Proof.
  assert (Hok : poll_ok (pollTimeout
                           (run_module_calls rt beforeNotify calls replies
                              initial_state))).
  { apply (run_module_calls_invariant rt (fun s => poll_ok (pollTimeout s)));
      simpl; auto using backoff_ok.
    by left. }
  split; [exact Hok|by apply poll_ok_bounds].
Qed.

(** ** Requests and answers alternate *)

Lemma used_up_none (replies : list http_reply) : used_up replies replies 0.
Proof. by exists []. Qed.

Lemma used_up_one (reply : http_reply) (rest : list http_reply) :
  used_up (reply :: rest) rest 1.
Proof. by exists [reply]. Qed.

Lemma used_up_more (reply : http_reply) (replies rest : list http_reply)
    (n : nat) :
  used_up replies rest n -> used_up (reply :: replies) rest (S n).
Proof. intros (used & -> & <-). by exists (reply :: used). Qed.

(** X10.  One request per answer.  A call of [sendRequest] that returns or
    throws has posted exactly as many requests as it has used up answers of
    the transport, follow-up requests of callbacks included, and the
    answers it leaves are a suffix of those it was given; a call that does
    not end has posted one request more than there were answers.  (No
    request is posted while another is unanswered, and none without a
    host.) *)
Theorem sendRequest_exchange (rt : Runtime) (replies : list http_reply) :
  forall command data host st,
    match sendRequest rt replies command data host st with
    | Done _ st' rest =>
        exists new,
          posted st' = (posted st ++ new)%list
          /\ used_up replies rest (length new)
    | Waiting st' =>
        exists new,
          posted st' = (posted st ++ new)%list
          /\ length new = S (length replies)
    end.
Proof.
  induction replies as [|reply rest IH]; intros command data host st;
    destruct (resolve_host host (clearTimeout st)) as [h|] eqn:Hh;
    try (rewrite sendRequest_no_host by done; exists [];
         split; [by rewrite app_nil_r|apply used_up_none]).
  - rewrite (sendRequest_unanswered _ _ _ _ _ h Hh). by eexists [_].
  - rewrite (sendRequest_answered _ _ _ _ _ _ _ h Hh).
    set (x := (request_url h command, with_session data (clearTimeout st))).
    assert (Hone : forall r st',
              posted st' = (posted st ++ [x])%list ->
              match finally_arm_poll (Done r st' rest) with
              | Done _ st'' rest' =>
                  exists new,
                    posted st'' = (posted st ++ new)%list
                    /\ used_up (reply :: rest) rest' (length new)
              | Waiting st'' =>
                  exists new,
                    posted st'' = (posted st ++ new)%list
                    /\ length new = S (length (reply :: rest))
              end).
    { intros r st' Hst'. exists [x]. split; [done|apply used_up_one]. }
    unfold after_reply.
    destruct (makeRequest reply) as [response|e]; [|by apply Hone].
    unfold handle_response.
    destruct (error_outcome response); [by apply Hone|].
    destruct response as [p|r]; [by apply Hone|].
    destruct (response_callback (BObject r)) as [callback|]; [|by apply Hone].
    destruct (run_callback rt _ _ r callback) as [[report|e] reg];
      [|by apply Hone].
    match goal with
    | |- context [sendRequest rt rest ?c ?d None ?s] =>
        specialize (IH c d None s);
        destruct (sendRequest rt rest c d None s) as [res st' rest'|st']
    end; simpl in *.
    + destruct IH as (new & -> & Hused). exists (x :: new). split.
      * by rewrite <- app_assoc.
      * by apply used_up_more.
    + destruct IH as (new & -> & Hlen). exists (x :: new). split.
      * by rewrite <- app_assoc.
      * simpl. by rewrite Hlen.
Qed.

(** ** The session *)

Lemma with_session_sessionId (data : payload) (st : rpc_state) (id : json) :
  sessionId st = Some id -> truthy_json (Some id) = true ->
  obj_get "sessionId" (with_session data st) = Some (FJson id).
Proof.
  intros Hid Htruthy. unfold with_session. rewrite Hid, Htruthy.
  apply Object_assign_copied; [apply NoDup_singleton|left].
Qed.


(** ** The poll timer *)

Lemma timers_numbered_clearTimeout (st : rpc_state) :
  timers_numbered st -> timers_numbered (clearTimeout st).
Proof.
  intros [Ht Hid]. split; [|done]. simpl. intros t Hin. apply Ht.
  destruct (pollTimeoutId st); [|done].
  by apply list_elem_of_filter in Hin as [_ Hin].
Qed.

Lemma timers_numbered_arm_poll (st : rpc_state) :
  timers_numbered st -> timers_numbered (arm_poll st).
Proof.
  intros [Ht Hid]. split; simpl.
  - intros t [Hin| ->%list_elem_of_singleton]%elem_of_app; simpl; [|lia].
    specialize (Ht t Hin). lia.
  - intros id [= <-]. lia.
Qed.

(** X12.  What a call leaves of the poll timer.  When [sendRequest]
    returns or throws, the timer it armed last is the one on record in
    [pollTimeoutId], it is pending with the value [pollTimeout] has at that
    moment as its delay, and the timer that was on record when the call
    started is no longer pending: it was cancelled before anything else.
    Timers are numbered in the order [setTimeout] creates them. *)
Theorem sendRequest_poll_timer (rt : Runtime) (replies rest : list http_reply)
    (command : string) (data : payload) (host : option string)
    (st st' : rpc_state) (r : throws (option json)) :
  timers_numbered st ->
  sendRequest rt replies command data host st = Done r st' rest ->
  timers_numbered st'
  /\ (exists id,
        pollTimeoutId st' = Some id
        /\ last (timers st') = Some (id, pollTimeout st')
        /\ (next_timer st <= id)%nat)
  /\ (forall old,
        pollTimeoutId st = Some old -> old ∉ map fst (timers st')).
Proof.
  intros Hnum Hsend.
  set (Q := fun s : rpc_state =>
              timers_numbered s
              /\ (next_timer st <= next_timer s)%nat
              /\ forall old t,
                   pollTimeoutId st = Some old -> t ∈ timers s ->
                   fst t <> old).
  assert (Q_arm : forall s, Q s -> Q (arm_poll s)).
  { intros s (Hs & Hle & Hold). split; [by apply timers_numbered_arm_poll|].
    split; [simpl; lia|]. simpl.
    intros old t Hst [Hin| ->%list_elem_of_singleton]%elem_of_app.
    - by eapply Hold.
    - simpl. destruct Hnum as [_ Hid]. specialize (Hid old Hst). lia. }
  assert (Q_clear : forall s, Q s -> Q (clearTimeout s)).
  { intros s (Hs & Hle & Hold). split; [by apply timers_numbered_clearTimeout|].
    split; [done|]. simpl. intros old t Hst Hin. apply (Hold old t Hst).
    destruct (pollTimeoutId s); [|done].
    by apply list_elem_of_filter in Hin as [_ Hin]. }
  assert (Hstart : Q (clearTimeout st)).
  { split; [by apply timers_numbered_clearTimeout|]. split; [done|]. simpl.
    intros old t ->. by intros [Hne _]%list_elem_of_filter. }
  assert (Hinv : forall replies c d host s,
            Q s -> Q (state_of (sendRequest rt replies c d host s))).
  { intros replies0 c d host0 s.
    apply (sendRequest_invariant rt Q); unfold Q; simpl; auto. }
  assert (Hfinal : exists s, Q s /\ st' = arm_poll s).
  { destruct (resolve_host host (clearTimeout st)) as [h|] eqn:Hh.
    - destruct replies as [|reply more].
      + by rewrite (sendRequest_unanswered _ _ _ _ _ h Hh) in Hsend.
      + rewrite (sendRequest_answered _ _ _ _ _ _ _ h Hh) in Hsend.
        assert (Hafter :
                  Q (state_of
                       (after_reply rt
                          (fun c d s => sendRequest rt more c d None s) reply
                          more command (with_session data (clearTimeout st))
                          (request_state command data h st)))).
        { unfold after_reply.
          destruct (makeRequest reply) as [response|e]; [|exact Hstart].
          apply (handle_response_invariant rt Q).
          - intros reg s (Hs & Hle & Hold) _. done.
          - intros c d s. apply Hinv.
          - exact Hstart. }
        destruct (after_reply rt _ reply more command _ _) as [r0 s rest0|s];
          simpl in Hsend; [|discriminate].
        injection Hsend as _ <- _. by exists s.
    - rewrite sendRequest_no_host in Hsend by done.
      injection Hsend as _ <- _. by exists (clearTimeout st). }
  destruct Hfinal as (s & (Hs & Hle & Hold) & ->).
  split; [by apply timers_numbered_arm_poll|]. split.
  - exists (next_timer s). simpl. split; [done|]. split; [|done].
    by rewrite last_snoc.
  - intros old Hst. simpl. rewrite map_app, elem_of_app. simpl.
    intros [Hin|Hin%list_elem_of_singleton].
    + apply list_elem_of_fmap in Hin as (t & -> & Hin). by eapply Hold.
    + destruct Hnum as [_ Hid]. specialize (Hid old Hst). lia.
Qed.

Lemma sendRequest_poll_timer_witness :
  timers session_state = [(0%nat, 10)]
  /\ pollTimeoutId session_state = Some 0%nat
  /\ exists st',
       sendRequest sample_runtime [result_reply None] "callbacks_poll" [] None
         session_state
       = Done (Ok None) st' []
       /\ pollTimeoutId st' = Some 1%nat
       /\ timers st' = [(1%nat, 20)]
       /\ 0%nat ∉ map fst (timers st').
Proof.
  split; [reflexivity|]. split; [reflexivity|].
  eexists. split; [reflexivity|]. split; [reflexivity|].
  split; [reflexivity|].
  apply (sendRequest_poll_timer sample_runtime [result_reply None] []
           "callbacks_poll" [] None session_state _ (Ok None)).
  - split.
    + intros t ->%list_elem_of_singleton. simpl. lia.
    + intros id [= <-]. simpl. lia.
  - reflexivity.
  - reflexivity.
Defined.

(** * Calls that fail before an answer is read *)

Lemma resolve_host_none (st : rpc_state) :
  truthy_string (sessionHost st) = false -> resolve_host None st = None.
Proof. unfold resolve_host. by intros ->. Qed.

(** X13.  Nothing is sent before a session exists.  While no session host
    is set, a call that names no host throws the error that asks for a
    session first: no request is posted, no answer of the transport is
    used, the poll interval is left as it is and the poll timer is armed
    again.  This holds for [sendRequest] and, through it, for its callers;
    [setProperty] and [callMethod] have serialized their arguments by then,
    so that the functions among them are registered all the same, and
    [clearTestState] does not reset the registry. *)
Theorem calls_without_session (rt : Runtime) (replies : list http_reply)
    (st : rpc_state) :
  truthy_string (sessionHost st) = false ->
  (forall command data,
     sendRequest rt replies command data None st
     = Done (Raise no_session) (arm_poll (clearTimeout st)) replies)
  /\ (forall realmId id name,
        getProperty rt replies realmId id name st
        = Finished (Raise no_session) (arm_poll (clearTimeout st)) replies)
  /\ (forall realmId id name value,
        setProperty rt replies realmId id name value st
        = Finished (Raise no_session)
            (arm_poll
               (clearTimeout
                  (set_registeredCallbacks
                     (snd (serialize rt (registeredCallbacks st) realmId value))
                     st)))
            replies)
  /\ (forall realmId id name args,
        exists st',
          callMethod rt replies realmId id name args st
          = Finished (Raise no_session) st' replies
          /\ posted st' = posted st
          /\ pollTimeout st' = pollTimeout st)
  /\ clearTestState rt replies st
     = Done (Raise no_session) (arm_poll (clearTimeout st)) replies.
Proof.
  intros Hhost.
  assert (Hsend : forall command data reg,
            sendRequest rt replies command data None
              (set_registeredCallbacks reg st)
            = Done (Raise no_session)
                (arm_poll (clearTimeout (set_registeredCallbacks reg st)))
                replies).
  { intros command data reg. apply sendRequest_no_host.
    by apply resolve_host_none. }
  assert (Hsend' : forall command data,
            sendRequest rt replies command data None st
            = Done (Raise no_session) (arm_poll (clearTimeout st)) replies).
  { intros command data. apply sendRequest_no_host.
    by apply resolve_host_none. }
  split; [exact Hsend'|]. split; [|split; [|split]].
  - intros realmId id name. unfold getProperty. by rewrite Hsend'.
  - intros realmId id name value. unfold setProperty.
    destruct (serialize rt (registeredCallbacks st) realmId value) as [e reg].
    by rewrite Hsend.
  - intros realmId id name args. unfold callMethod.
    destruct args as [args|].
    + destruct (Array_map _ (registeredCallbacks st) args) as [es reg].
      rewrite Hsend. by eexists.
    + rewrite Hsend. by eexists.
  - unfold clearTestState. by rewrite Hsend'.
Qed.

Lemma calls_without_session_witness :
  sendRequest sample_runtime [result_reply None] "get_property" [] None
    initial_state
  = Done (Raise no_session) (arm_poll (clearTimeout initial_state))
      [result_reply None]
  /\ posted (arm_poll (clearTimeout initial_state)) = [].
Proof.
  split; [|reflexivity].
  apply (calls_without_session sample_runtime [result_reply None]
           initial_state eq_refl).
Defined.

(** X14.  A failed transport.  When the transport answers with a status
    other than 200, [sendRequest] throws an error whose message is the text
    of the answer; when the status is 200 and the text is not JSON, it
    throws the [SyntaxError] of the parser.  Either way the request has
    been posted, the answer is used up, and neither the poll interval nor
    the registry has changed: the interval is not reset even for a command
    other than the poll. *)
Theorem sendRequest_transport_failure (rt : Runtime) (reply : http_reply)
    (rest : list http_reply) (command : string) (data : payload)
    (host : option string) (st : rpc_state) (h : string) :
  resolve_host host (clearTimeout st) = Some h ->
  statusCode reply <> 200 \/ parsed reply = None ->
  exists st',
    sendRequest rt (reply :: rest) command data host st
    = Done (Raise (transport_exception reply)) st' rest
    /\ posted st'
       = (posted st ++ [(request_url h command, with_session data st)])%list
    /\ pollTimeout st' = pollTimeout st
    /\ registeredCallbacks st' = registeredCallbacks st.
Proof.
  intros Hh Hfail. rewrite (sendRequest_answered _ _ _ _ _ _ _ h Hh).
  unfold after_reply, makeRequest, transport_exception.
  destruct (Z.eqb_spec (statusCode reply) 200) as [Hok|Hne].
  - destruct Hfail as [Hne|Hnone]; [done|]. rewrite Hnone.
    eexists. split; [reflexivity|]. by repeat split.
  - eexists. split; [reflexivity|]. by repeat split.
Qed.

Lemma sendRequest_transport_failure_witness :
  exists st',
    sendRequest sample_runtime [failed_reply] "get_property" [] None
      session_state
    = Done (Raise (ErrorObject
                     [("message", EPrim (PStr "Internal Server Error"))]))
        st' []
    /\ pollTimeout st' = pollTimeout session_state.
Proof.
  destruct (sendRequest_transport_failure sample_runtime failed_reply
              [] "get_property" [] None session_state "localhost" eq_refl
              (or_intror eq_refl))
    as (st' & Hsend & _ & Hpoll & _).
  exists st'. by split.
Defined.

(** * The poll interval after a command *)

Lemma callbackCommand_not_poll (command : string) :
  callbackCommand command <> "callbacks_poll".
Proof. unfold callbackCommand. by destruct (_ || _). Qed.

Lemma backoff_command (callback : option Z) (command : string) (t : Z) :
  command <> "callbacks_poll" -> backoff callback command t = 10.
Proof.
  intros Hne. unfold backoff.
  destruct (String.eqb_spec command "callbacks_poll"); [done|].
  by rewrite orb_true_r.
Qed.

Lemma sendRequest_keeps_ten (rt : Runtime) (replies : list http_reply) :
  forall command data host st,
    command <> "callbacks_poll" ->
    pollTimeout st = 10 ->
    pollTimeout (state_of (sendRequest rt replies command data host st)) = 10.
Proof.
  induction replies as [|reply rest IH]; intros command data host st Hc Hst;
    destruct (resolve_host host (clearTimeout st)) as [h|] eqn:Hh;
    try (by rewrite sendRequest_no_host by done).
  - by rewrite (sendRequest_unanswered _ _ _ _ _ h Hh).
  - rewrite (sendRequest_answered _ _ _ _ _ _ _ h Hh).
    apply (finally_arm_poll_preserves (fun s => pollTimeout s = 10));
      [done|].
    unfold after_reply. destruct (makeRequest reply) as [response|e]; [|done].
    rewrite (backoff_command _ _ _ Hc). unfold handle_response.
    destruct (error_outcome response); [done|].
    destruct response as [p|r]; [done|].
    destruct (response_callback (BObject r)) as [callback|]; [|done].
    destruct (run_callback rt _ _ r callback) as [[report|e] reg]; [|done].
    apply IH; [apply callbackCommand_not_poll|done].
Qed.

(** X15.  Any command but the poll leaves the interval at 10.  When the
    transport has answered a command other than [callbacks_poll] with a
    response, [pollTimeout] is 10 once the call is over, however it ends:
    with a result, with an error, after any number of callbacks and
    follow-up requests, or waiting for an answer to one of them. *)
Theorem command_resets_pollTimeout (rt : Runtime) (reply : http_reply)
    (rest : list http_reply) (command : string) (data : payload)
    (host : option string) (st : rpc_state) (h : string) (response : body) :
  command <> "callbacks_poll" ->
  resolve_host host (clearTimeout st) = Some h ->
  makeRequest reply = Ok response ->
  pollTimeout (state_of (sendRequest rt (reply :: rest) command data host st))
  = 10.
Proof.
  intros Hc Hh Hreply.
  rewrite (sendRequest_cycle rt reply rest command data host st h response Hh
             Hreply).
  apply (finally_arm_poll_preserves (fun s => pollTimeout s = 10)); [done|].
  rewrite (backoff_command _ _ _ Hc). unfold handle_response.
  destruct (error_outcome response); [done|].
  destruct response as [p|r]; [done|].
  destruct (response_callback (BObject r)) as [callback|]; [|done].
  destruct (run_callback rt _ _ r callback) as [[report|e] reg]; [|done].
  apply sendRequest_keeps_ten; [apply callbackCommand_not_poll|done].
Qed.

Lemma command_resets_pollTimeout_witness :
  pollTimeout
    (state_of
       (sendRequest sample_runtime [result_reply None] "callbacks_poll" []
          None session_state))
  = 20
  /\ pollTimeout
       (state_of
          (sendRequest sample_runtime
             [callback_reply 7 sample_this sample_arguments 3]
             "get_property" [] None
             (state_of
                (sendRequest sample_runtime [result_reply None]
                   "callbacks_poll" [] None session_state))))
     = 10.
Proof.
  split; [reflexivity|].
  eapply (command_resets_pollTimeout sample_runtime
            (callback_reply 7 sample_this sample_arguments 3) []
            "get_property" [] None _ "localhost");
    [discriminate|reflexivity|reflexivity].
Defined.

(** * Callback requests *)



(** X19.  What a callback returns.  When the registered callback returns,
    the value it returned is serialized, which registers the functions
    inside it, and goes into the follow-up request as [result], with
    neither error nor stack; the call ends as the follow-up ends. *)
Theorem callback_result_reported (rt : Runtime) (reply : http_reply)
    (rest : list http_reply) (command : string) (data : payload)
    (host : option string) (st : rpc_state) (h : string) (r : response)
    (callback : Z) (fn : fn) (thisObject args v : jsval) :
  resolve_host host (clearTimeout st) = Some h ->
  makeRequest reply = Ok (BObject r) ->
  truthy_error (resp_error r) = false ->
  resp_callback r = Some callback ->
  deserialize_member rt (registeredCallbacks st)
    (data_realmId (with_session data st)) (resp_this r) = Ok thisObject ->
  deserialize_member rt (registeredCallbacks st)
    (data_realmId (with_session data st)) (resp_arguments r) = Ok args ->
  array_get (registeredCallbacks st) callback = Some fn ->
  fn_apply rt fn thisObject args = Returned v ->
  exists followup,
    sendRequest rt (reply :: rest) command data host st
    = finally_arm_poll
        (sendRequest rt rest (followup_command command) followup None
           (callback_state command data h callback
              (snd (serialize rt (registeredCallbacks st)
                      (data_realmId (with_session data st)) v))
              st))
    /\ obj_get "result" followup
       = Some (FJson (JEnvelope
                        (fst (serialize rt (registeredCallbacks st)
                                (data_realmId (with_session data st)) v))))
    /\ obj_get "error" followup = Some (FValue VUndefined)
    /\ obj_get "stack" followup = Some (FValue VUndefined).
Proof.
  intros Hh Hreply Herr Hcb Hthis Hargs Hfn Hret.
  rewrite (sendRequest_callback_outcome rt reply rest command data host st h r
             callback Hh Hreply Herr Hcb).
  unfold run_callback. rewrite Hthis, Hargs, Hfn, Hret.
  destruct (serialize rt _ _ v) as [e reg].
  eexists. split; [reflexivity|]. by repeat split.
Qed.

Lemma callback_result_reported_witness :
  exists followup,
    sendRequest sample_runtime
      [callback_reply 0 (function_envelope 0) sample_arguments 3]
      "call_method" [] None session_state
    = finally_arm_poll
        (sendRequest sample_runtime [] "callback_result" followup None
           (callback_state "call_method" [] "localhost" 0
              (registeredCallbacks session_state) session_state))
    /\ obj_get "result" followup = Some (FJson (JEnvelope (function_envelope 0)))
    /\ obj_get "error" followup = Some (FValue VUndefined).
Proof.
  destruct (callback_result_reported sample_runtime
              (callback_reply 0 (function_envelope 0) sample_arguments 3)
              [] "call_method" [] None session_state "localhost" _ 0 _ _ _ _
              eq_refl eq_refl eq_refl eq_refl eq_refl eq_refl eq_refl eq_refl)
    as (followup & Hsend & Hresult & Herror & _).
  exists followup. by repeat split.
Defined.


Lemma poll_callback_zero_doubles_witness :
  exists o st',
    sendRequest sample_runtime
      [callback_reply 0 sample_this sample_arguments 3]
      "callbacks_poll" [] None session_state
    = finally_arm_poll o
    /\ pollTimeout st' = 20
    /\ (o = Done (Raise TypeError) st' []
        \/ exists followup,
             o = sendRequest sample_runtime [] "callback_poll_result" followup
                   None st').
Proof.
  apply (poll_callback_zero_doubles sample_runtime
           (callback_reply 0 sample_this sample_arguments 3) []
           [] None session_state "localhost" _ eq_refl eq_refl eq_refl eq_refl
           eq_refl).
Defined.

Lemma unusable_response_raises_generic_witness :
  exists st',
    sendRequest sample_runtime [reply_with (BPrim (PBool false))]
      "get_property" [] None session_state
    = Done (Raise (ErrorObject
                     [("message",
                       EPrim (PStr (invalid_response "get_property")))]))
        st' [].
Proof.
  apply (unusable_response_raises_generic sample_runtime
           (reply_with (BPrim (PBool false))) [] "get_property" [] None
           session_state "localhost" (BPrim (PBool false)) eq_refl eq_refl).
  left. exists (PBool false). by repeat split.
Defined.

(** ** A call answered through one callback *)

Lemma filter_timer_twice (id : nat) (l : list (nat * Z)) :
  filter (fun t => fst t ≠ id) (filter (fun t => fst t ≠ id) l)
  = filter (fun t => fst t ≠ id) l.
Proof.
  induction l as [|t l IH]; [done|].
  rewrite (filter_cons _ t l).
  destruct (decide (fst t ≠ id)) as [Hne|Heq]; [|exact IH].
  rewrite (filter_cons _ t (filter _ l)).
  destruct (decide (fst t ≠ id)); [by rewrite IH|done].
Qed.

(** X21.  A call answered through one callback request.  When the first
    response asks for a callback, the callback block completes, and the
    response to the follow-up request carries neither error nor callback,
    the call returns the result of the second response.  Exactly two
    requests have been posted, the command and its follow-up, the latter to
    the session host; the registry is the one the callback block left; the
    poll interval is 10; and two timers have been armed, one by the nested
    call and one by the outer call, of which only the second is on record
    in [pollTimeoutId], so that the first stays pending when the next call
    cancels the timer on record. *)
Theorem callback_round_trip (rt : Runtime) (request result : http_reply)
    (rest : list http_reply) (command : string) (data : payload)
    (host : option string) (st : rpc_state) (h h' : string)
    (r1 r2 : response) (callback : Z) (report : callback_report)
    (reg : list fn) :
  resolve_host host (clearTimeout st) = Some h ->
  resolve_host None st = Some h' ->
  makeRequest request = Ok (BObject r1) ->
  truthy_error (resp_error r1) = false ->
  resp_callback r1 = Some callback ->
  run_callback rt (registeredCallbacks st) (data_realmId (with_session data st))
    r1 callback = (Ok report, reg) ->
  makeRequest result = Ok (BObject r2) ->
  truthy_error (resp_error r2) = false ->
  resp_callback r2 = None ->
  exists st',
    sendRequest rt (request :: result :: rest) command data host st
    = Done (Ok (resp_result r2)) st' rest
    /\ posted st'
       = (posted st
          ++ [(request_url h command, with_session data st);
              (request_url h' (callbackCommand command),
               with_session
                 (callback_payload callback report
                    (resp_callback_call_counter r1)) st)])%list
    /\ registeredCallbacks st' = reg
    /\ pollTimeout st' = 10
    /\ pollTimeoutId st' = Some (S (next_timer st))
    /\ timers st'
       = (timers (clearTimeout st)
          ++ [(next_timer st, 10); (S (next_timer st), 10)])%list.
Proof.
  intros Hh Hh' Hreq Herr1 Hcb1 Hrun Hres Herr2 Hcb2.
  rewrite (sendRequest_callback_outcome rt request (result :: rest) command
             data host st h r1 callback Hh Hreq Herr1 Hcb1).
  rewrite Hrun, <- callbackCommand_spec.
  set (st1 := callback_state command data h callback reg st).
  assert (Hh1 : resolve_host None (clearTimeout st1) = Some h') by exact Hh'.
  rewrite (sendRequest_cycle rt result rest (callbackCommand command) _ None
             st1 h' (BObject r2) Hh1 Hres).
  unfold handle_response. cbn [error_outcome response_callback].
  rewrite Herr2, Hcb2. cbn [finally_arm_poll].
  rewrite (backoff_command _ _ _ (callbackCommand_not_poll command)).
  eexists. split; [reflexivity|].
  split; [by simpl; rewrite <- app_assoc|].
  split; [reflexivity|]. split; [reflexivity|]. split; [reflexivity|].
  simpl. rewrite <- app_assoc. simpl. f_equal.
  destruct (pollTimeoutId st) as [id|]; [|done].
  apply filter_timer_twice.
Qed.

Lemma callback_round_trip_witness :
  exists st',
    sendRequest sample_runtime
      [callback_reply 0 sample_this sample_arguments 3;
       result_reply (Some (JPrim (PStr "done")))]
      "call_method" [] None session_state
    = Done (Ok (Some (JPrim (PStr "done")))) st' []
    /\ length (posted st') = S (S (length (posted session_state)))
    /\ pollTimeoutId st' = Some 2%nat
    /\ timers st' = [(1%nat, 10); (2%nat, 10)].
Proof.
  destruct (callback_round_trip sample_runtime
              (callback_reply 0 sample_this sample_arguments 3)
              (result_reply (Some (JPrim (PStr "done")))) []
              "call_method" [] None session_state "localhost" "localhost"
              _ _ 0 _ _
              eq_refl eq_refl eq_refl eq_refl eq_refl eq_refl eq_refl eq_refl
              eq_refl)
    as (st' & Hsend & Hposted & _ & _ & Hid & Htimers).
  exists st'. split; [exact Hsend|]. split; [|split].
  - rewrite Hposted, length_app. simpl. lia.
  - exact Hid.
  - rewrite Htimers. reflexivity.
Defined.

(** * The session handshake and the reset *)

(** X22.  What [createSession] establishes.  However the call ends, the
    function passed as [refreshAccessToken] carries the persistence mark
    and is in the registry.  When the call returns, the session host is the
    host that was passed (also when none was passed and the request went to
    the host of the session before) and the session identifier is what the
    request returned; when it throws, both are what they were.  With a
    host to send to, the first request posted is [create_session] with the
    handle of the function as [refreshAccessToken]. *)
Theorem createSession_outcome (rt : Runtime) (replies : list http_reply)
    (refreshAccessToken : fn) (host : option string) (st : rpc_state) :
  refreshAccessToken
    ∈ persistentCallback
        (state_of (createSession rt replies refreshAccessToken host st))
  /\ refreshAccessToken
       ∈ registeredCallbacks
           (state_of (createSession rt replies refreshAccessToken host st))
  /\ (forall id st' rest,
        createSession rt replies refreshAccessToken host st
        = Done (Ok id) st' rest ->
        sessionHost st' = host /\ sessionId st' = id)
  /\ (forall e st' rest,
        createSession rt replies refreshAccessToken host st
        = Done (Raise e) st' rest ->
        sessionHost st' = sessionHost st /\ sessionId st' = sessionId st)
  /\ (forall h,
        resolve_host host st = Some h ->
        exists i more,
          array_get
            (registeredCallbacks
               (state_of (createSession rt replies refreshAccessToken host st)))
            i = Some refreshAccessToken
          /\ posted (state_of (createSession rt replies refreshAccessToken host
                                 st))
             = (posted st
                ++ (request_url h "create_session",
                    with_session
                      [("refreshAccessToken",
                        FJson (JEnvelope (function_envelope i)))] st)
                :: more)%list).
Proof.
  unfold createSession. cbv zeta. cbn [registeredCallbacks serialize].
  destruct (registerCallback_spec (registeredCallbacks st) refreshAccessToken)
    as (ext & Hreg & _ & Hget & Hin).
  destruct (registerCallback (registeredCallbacks st) refreshAccessToken)
    as [i reg]. simpl in Hreg, Hget. subst reg.
  match goal with
  | |- context [sendRequest rt replies ?c ?d host ?s] =>
      pose proof (sendRequest_continues rt replies c d host s) as Hc;
      pose proof (sendRequest_keeps_session rt replies c d host s)
        as (Hid & Hhost & Hpers);
      pose proof (fun h => sendRequest_posts_first rt replies c d host s h)
        as Hposted;
      destruct (sendRequest rt replies c d host s) as [[id|err] st1 rest1|st1]
  end; simpl in *.
  - split; [rewrite Hpers; by apply elem_of_union_l, elem_of_singleton|].
    split; [by eapply continues_elem|].
    split; [by intros ? ? ? [= <- <- <-]|]. split; [discriminate|].
    intros h Hh. destruct (Hposted h Hh) as [more Hmore].
    exists i, more. split; [by eapply continues_get|exact Hmore].
  - split; [rewrite Hpers; by apply elem_of_union_l, elem_of_singleton|].
    split; [by eapply continues_elem|].
    split; [discriminate|]. split; [by intros ? ? ? [= <- <- <-]|].
    intros h Hh. destruct (Hposted h Hh) as [more Hmore].
    exists i, more. split; [by eapply continues_get|exact Hmore].
  - split; [rewrite Hpers; by apply elem_of_union_l, elem_of_singleton|].
    split; [by eapply continues_elem|].
    split; [discriminate|]. split; [discriminate|].
    intros h Hh. destruct (Hposted h Hh) as [more Hmore].
    exists i, more. split; [by eapply continues_get|exact Hmore].
Qed.

(** X23.  A reset whose request fails removes nothing.  When
    [clearTestState] throws, it is the request that threw, and the registry
    was not reset: every handle that resolved before the call resolves to
    the same function after it, whether the function is persistent or
    not. *)
Theorem clearTestState_failed (rt : Runtime) (replies rest : list http_reply)
    (st st' : rpc_state) (e : exn) :
  clearTestState rt replies st = Done (Raise e) st' rest ->
  sendRequest rt replies "clear_test_state" [] None st = Done (Raise e) st' rest
  /\ continues (registeredCallbacks st) (registeredCallbacks st')
  /\ forall i f,
       array_get (registeredCallbacks st) i = Some f ->
       array_get (registeredCallbacks st') i = Some f.
Proof.
  unfold clearTestState. intros Hclear.
  pose proof (sendRequest_continues rt replies "clear_test_state" [] None st)
    as Hc.
  destruct (sendRequest rt replies "clear_test_state" [] None st)
    as [[r|err] st1 rest1|st1]; try discriminate.
  injection Hclear as -> -> ->. simpl in Hc.
  split; [done|]. split; [done|]. intros i f. by apply continues_get.
Qed.

Lemma clearTestState_failed_witness :
  exists st',
    clearTestState sample_runtime
      [error_reply (ErrPrim (PStr "Error: not now")) None]
      (set_registeredCallbacks [2%nat; 5%nat] session_state)
    = Done (Raise (ErrorObject [("message", EPrim (PStr "not now"))])) st' []
    /\ array_get (registeredCallbacks st') 1 = Some 5%nat.
Proof.
  eexists. split; [reflexivity|].
  apply (clearTestState_failed sample_runtime
           [error_reply (ErrPrim (PStr "Error: not now")) None] []
           (set_registeredCallbacks [2%nat; 5%nat] session_state) _ _
           eq_refl).
  reflexivity.
Defined.

(** * Callers of the dispatcher *)




